(** * The subitizing experiment (subitize.py), embedded and verified

    The script is a straight-line PsychoPy program with module-level mutable
    state: the condition list, six parallel result lists, PsychoPy's keyboard
    event buffer, the global random generator and a clock.  It is embedded as
    a state-and-failure monad over that state.  Everything the outside world
    decides (random draws, clock readings, key presses) is read from an
    environment of oracles, so that each run of the script is a function of
    its environment.

    Drawing calls (draw, flip, Window, Circle, ...) change nothing that the
    script reads back and are left out. *)

From Stdlib Require Import ZArith QArith Lia List Bool String Ascii.
From Stdlib Require Import Permutation Sorted Lqa.
From Stdlib Require Import Decimal DecimalString DecimalZ.
From stdpp Require Import base list.

Local Open Scope string_scope.
Local Open Scope list_scope.
Local Open Scope Z_scope.

(** ** Settings (STIMULUS AND TRIAL SETTINGS, CREATION OF WINDOW) *)

Definition N_BLOCKS : Z := 3.
Definition N_TRIALS : Z := 10.
Definition BLOCK_START_DURATION : Z := 2.
Definition CIRCLE_RADIUS : Z := 9.
Definition CIRCLE_DIAMETER : Z := CIRCLE_RADIUS * 2.
Definition CIRCLE_DURATION : Z := 1.
Definition FIX_DURATION : Z := 1.
Definition WINDOW_X : Z := 600.
Definition WINDOW_Y : Z := 600.
Definition WINDOW_PADDING : Z := 200.

(** ** Keys

    PsychoPy reports a key press as a string: the name of the key ("a",
    "space", "5", "num_5", ...) or, for a key that has no name, the
    character that it types (a superscript two, an accented letter, an
    Arabic-Indic digit, ...).  A Python string is a sequence of Unicode code
    points. *)

Definition char := N.
Definition key := list char.

(** The string of a literal of the script or of a key name, one code point
    for each character. *)
Definition name (s : string) : key :=
  map N_of_ascii (list_ascii_of_string s).

Fixpoint key_eqb (a b : key) : bool :=
  match a, b with
  | [], [] => true
  | x :: a', y :: b' => (x =? y)%N && key_eqb a' b'
  | _, _ => false
  end.

(** What the Unicode character database says about a character: its
    Numeric_Type, with the value of a decimal digit. *)
Inductive numeric_type : Type :=
| NT_Decimal (value : Z)
| NT_Digit
| NT_Numeric
| NT_None.

(** The database of the Python that runs the script, for the characters
    that are not ASCII. *)
Definition UnicodeData : Type := char -> numeric_type.

(** Of the ASCII characters, the ten digits are numeric and no other; the
    database decides for the others. *)
Definition numeric_type_of (u : UnicodeData) (c : char) : numeric_type :=
  if (c <? 128)%N then
    if (48 <=? c)%N && (c <=? 57)%N then NT_Decimal (Z.of_N c - 48)
    else NT_None
  else u c.

Definition is_numeric (u : UnicodeData) (c : char) : bool :=
  match numeric_type_of u c with
  | NT_None => false
  | _ => true
  end.

(** [str.isnumeric()]: false on the empty string, true when every character
    has a Numeric_Type (decimal, digit or numeric). *)
Definition isnumeric (u : UnicodeData) (s : key) : bool :=
  match s with
  | [] => false
  | _ => forallb (is_numeric u) s
  end.

(** The decimal digits of a string, read from the left; [None] at the first
    character that is no decimal digit. *)
Fixpoint int_digits (u : UnicodeData) (acc : Z) (s : key) : option Z :=
  match s with
  | [] => Some acc
  | c :: s' =>
      match numeric_type_of u c with
      | NT_Decimal v => int_digits u (10 * acc + v) s'
      | _ => None
      end
  end.

(** The default of [sys.int_max_str_digits]. *)
Definition INT_MAX_STR_DIGITS : Z := 4300.

(** [int(s)] for a string that [isnumeric] accepts, which is how the script
    calls it: behind the test of line 238, and in line 241 on the key that
    passed the test or that the wait for a digit key returned.  Such a
    string has no sign, space or underscore; [int] converts it when all its
    characters are decimal digits, of any script, and raises a ValueError
    ([None]) when one of them is numeric without being a decimal digit (a
    superscript, a fraction) or when there are more digits than the
    interpreter converts. *)
Definition int (u : UnicodeData) (s : key) : option Z :=
  if isnumeric u s && (Z.of_nat (length s) <=? INT_MAX_STR_DIGITS)
  then int_digits u 0 s
  else None.

(** The [keyList] of the response prompt, in the order of the source. *)
Definition digit_keys : list key :=
  map name ["1"; "2"; "3"; "4"; "5"; "6"; "7"; "8"; "9"; "0"].

Definition key_in (k : key) (l : list key) : bool :=
  existsb (key_eqb k) l.

(** ** The results file (PATH SETTINGS, COLLECT PARTICIPANT INFO)

    The working directory, the subject number of the dialog and the date of
    the day are what the name of the results file is made of.  The subject
    number is an integer, as the dialog has it when a number is entered. *)

(** [str(z)] of an integer, as an f-string formats it. *)
Definition str (z : Z) : string := NilEmpty.string_of_int (Z.to_int z).

Fixpoint ends_with (c : ascii) (s : string) : bool :=
  match s with
  | EmptyString => false
  | String a EmptyString => Ascii.eqb a c
  | String _ s' => ends_with c s'
  end.

(** [os.path.join(a, b)] on a POSIX system. *)
Definition path_join (a b : string) : string :=
  if String.prefix "/" b then b
  else if String.eqb a "" || ends_with "/" a then (a ++ b)%string
  else (a ++ "/" ++ b)%string.

(** [datetime.now()], as far as the script looks at it. *)
Record Date := {
  day : nat;
  month : nat;
  year : nat
}.

(** [f"{date.day}-{date.month}-{date.year}"] *)
Definition date_text (date : Date) : string :=
  (str (Z.of_nat (day date)) ++ "-" ++ str (Z.of_nat (month date)) ++ "-"
   ++ str (Z.of_nat (year date)))%string.

(** [data_dir = os.path.join(directory, 'data')] *)
Definition data_dir (directory : string) : string :=
  path_join directory "data".

(** Lines 67-70. *)
Definition experiment_filename (directory : string) (subject_number : Z)
    (date : Date) : string :=
  path_join (data_dir directory)
    ("subject" ++ str subject_number ++ "_" ++ date_text date ++ "_"
     ++ "results.csv")%string.

(** ** The environment

    - [entropy i] is the [i]-th raw value obtained from the random generator;
    - [clock i] is the reading of the [i]-th call of [timer.getTime()], in
      seconds;
    - [typed i] are the keys pressed during the [i]-th timed wait
      ([core.wait]), in the order pressed;
    - [pressed i] are the keys pressed from the start of the [i]-th blocking
      wait ([event.waitKeys]) on, in the order pressed;
    - [unicode] is the Unicode character database of the interpreter. *)

Record Env := {
  entropy : nat -> Z;
  clock : nat -> Q;
  typed : nat -> list key;
  pressed : nat -> list key;
  unicode : UnicodeData
}.

(** ** The state *)

(** How much of each oracle has been consumed, and PsychoPy's event buffer. *)
Record World := {
  rng_pos : nat;
  clk_pos : nat;
  wait_pos : nat;
  ask_pos : nat;
  events : list key
}.

(** The six parallel lists of PREPARE DATA COLLECTION LISTS. *)
Record Data := {
  block_n : list Z;
  trial_n : list Z;
  correct_response : list Z;
  participant_response : list Z;
  was_correct : list bool;
  rt_list : list Q
}.

Record State := {
  world : World;
  conditions : list Z;
  data : Data
}.

Definition set_world (s : State) (w : World) : State :=
  {| world := w; conditions := conditions s; data := data s |}.

Definition set_conditions (s : State) (c : list Z) : State :=
  {| world := world s; conditions := c; data := data s |}.

Definition set_data (s : State) (d : Data) : State :=
  {| world := world s; conditions := conditions s; data := d |}.

(** [conditions = [trial_i for trial_i in range(1, N_TRIALS+1)]] *)
Definition initial_conditions : list Z :=
  map Z.of_nat (seq 1 (Z.to_nat N_TRIALS)).

Definition empty_data : Data :=
  {| block_n := []; trial_n := []; correct_response := [];
     participant_response := []; was_correct := []; rt_list := [] |}.

Definition initial_world : World :=
  {| rng_pos := 0; clk_pos := 0; wait_pos := 0; ask_pos := 0; events := [] |}.

Definition initial_state : State :=
  {| world := initial_world; conditions := initial_conditions;
     data := empty_data |}.

(** ** The monad

    A step either finishes with a value and a new state, never returns
    because it waits for a key that is not pressed ([Hang]), raises a Python
    exception ([Raise]), or exceeds the bound put on the rejection loop
    ([Timeout]); the last one exists in the model only. *)

Inductive result (A : Type) : Type :=
| Done (a : A) (s : State)
| Hang
| Raise
| Timeout.

Arguments Done {A} a s.
Arguments Hang {A}.
Arguments Raise {A}.
Arguments Timeout {A}.

Definition M (A : Type) : Type := State -> result A.

Definition ret {A} (a : A) : M A := fun s => Done a s.

Definition bind {A B} (m : M A) (f : A -> M B) : M B :=
  fun s =>
    match m s with
    | Done a s' => f a s'
    | Hang => Hang
    | Raise => Raise
    | Timeout => Timeout
    end.

Definition raise {A} : M A := fun _ => Raise.
Definition timeout {A} : M A := fun _ => Timeout.

Declare Scope prog_scope.
Delimit Scope prog_scope with prog.
Notation "x <- m ;; k" := (bind m (fun x => k))
  (at level 100, m at level 99, right associativity) : prog_scope.
Notation "m ;;; k" := (bind m (fun _ => k))
  (at level 100, right associativity) : prog_scope.
Local Open Scope prog_scope.

Definition get {A} (f : State -> A) : M A := fun s => Done (f s) s.
Definition modify (f : State -> State) : M unit := fun s => Done tt (f s).

(** [for x in l: body(x)] *)
Fixpoint for_each {A} (l : list A) (body : A -> M unit) : M unit :=
  match l with
  | [] => ret tt
  | x :: l' => body x ;;; for_each l' body
  end.

(** A value that may be missing, where Python raises. *)
Definition or_raise {A} (o : option A) : M A :=
  match o with
  | Some a => ret a
  | None => raise
  end.

(** [range(lo, hi)] *)
Definition range (lo hi : Z) : list Z :=
  map (fun i => lo + Z.of_nat i) (seq 0 (Z.to_nat (hi - lo))).

(** ** The collaborators: random generator, clock, keyboard *)

Section Program.

Variable env : Env.

(** The bound on the number of candidates one run of the rejection loop may
    draw.  The source has none. *)
Variable fuel : nat.

Definition advance_rng (w : World) : World :=
  {| rng_pos := S (rng_pos w); clk_pos := clk_pos w; wait_pos := wait_pos w;
     ask_pos := ask_pos w; events := events w |}.

Definition advance_clk (w : World) : World :=
  {| rng_pos := rng_pos w; clk_pos := S (clk_pos w); wait_pos := wait_pos w;
     ask_pos := ask_pos w; events := events w |}.

Definition set_events (w : World) (ks : list key) : World :=
  {| rng_pos := rng_pos w; clk_pos := clk_pos w; wait_pos := wait_pos w;
     ask_pos := ask_pos w; events := ks |}.

Definition after_wait (w : World) (ks : list key) : World :=
  {| rng_pos := rng_pos w; clk_pos := clk_pos w; wait_pos := S (wait_pos w);
     ask_pos := ask_pos w; events := ks |}.

Definition after_ask (w : World) (ks : list key) : World :=
  {| rng_pos := rng_pos w; clk_pos := clk_pos w; wait_pos := wait_pos w;
     ask_pos := S (ask_pos w); events := ks |}.

(** The generator's [_randbelow(n)]: a value in [0, n), one raw value
    consumed. *)
Definition randbelow (n : Z) : M Z :=
  fun s => Done (entropy env (rng_pos (world s)) mod n)
                (set_world s (advance_rng (world s))).

(** [random.randint(a, b)]: an integer N with a <= N <= b. *)
Definition randint (a b : Z) : M Z :=
  (r <- randbelow (b - a + 1) ;; ret (a + r)).

(** [timer.getTime()] *)
Definition getTime : M Q :=
  fun s => Done (clock env (clk_pos (world s)))
                (set_world s (advance_clk (world s))).

(** [core.wait(secs)]: the keys pressed meanwhile join the event buffer. *)
Definition core_wait (secs : Z) : M unit :=
  fun s => let w := world s in
           Done tt (set_world s
                      (after_wait w (events w ++ typed env (wait_pos w)))).

(** [event.clearEvents()] *)
Definition clearEvents : M unit :=
  modify (fun s => set_world s (set_events (world s) [])).

(** [event.getKeys()]: the whole buffer, which is emptied. *)
Definition getKeys : M (list key) :=
  fun s => Done (events (world s)) (set_world s (set_events (world s) [])).

Definition accepts (keyList : option (list key)) (k : key) : bool :=
  match keyList with
  | None => true
  | Some l => key_in k l
  end.

(** The polling loop of [event.waitKeys]: the first press that [keyList]
    accepts ends the wait; the presses before it stay in the buffer. *)
Fixpoint await (keyList : option (list key)) (ks skipped : list key)
  : option (key * list key) :=
  match ks with
  | [] => None
  | k :: ks' =>
      if accepts keyList k then Some (k, skipped)
      else await keyList ks' (skipped ++ [k])
  end.

(** [event.waitKeys(keyList=...)]: no [maxWait], so it returns only when an
    accepted key is pressed; the buffer is cleared first ([clearEvents=True]
    is the default). *)
Definition waitKeys (keyList : option (list key)) : M (list key) :=
  fun s => let w := world s in
           match await keyList (pressed env (ask_pos w)) [] with
           | Some (k, rest) => Done [k] (set_world s (after_ask w rest))
           | None => Hang
           end.

(** ** The placement of the circles (lines 193-216) *)

(** Bounds of [random.randint] for x and for y.  [WINDOW_X/2] is the float
    300.0, so the bounds are the floats -81.0 and 81.0; the generator of the
    Python versions that PsychoPy runs on (up to 3.11) takes an integral
    float for the integer, and returns integers. *)
Definition x_lo : Z := - WINDOW_X / 2 + CIRCLE_DIAMETER + WINDOW_PADDING + 1.
Definition x_hi : Z := WINDOW_X / 2 - CIRCLE_DIAMETER - WINDOW_PADDING - 1.
Definition y_lo : Z := - WINDOW_Y / 2 + CIRCLE_DIAMETER + WINDOW_PADDING + 1.
Definition y_hi : Z := WINDOW_Y / 2 - CIRCLE_DIAMETER - WINDOW_PADDING - 1.

Definition dist2 (x y pos_x pos_y : Z) : Z :=
  (x - pos_x) ^ 2 + (y - pos_y) ^ 2.

(** [((x - pos_x)**2 + (y - pos_y)**2)**(1/2) <= CIRCLE_DIAMETER].  The
    coordinates are integers, so the squared distance is an exact integer
    below 2^53, and its floating-point square root is at most 18.0 exactly
    when the integer is at most 18^2 (the root of 324 is exactly 18.0, that
    of 325 exceeds 18.02). *)
Definition too_close (x y pos_x pos_y : Z) : bool :=
  dist2 x y pos_x pos_y <=? CIRCLE_DIAMETER ^ 2.

(** The inner [for pos_x, pos_y in valid_positions] with its [break]:
    the value of [valid] after the loop. *)
Fixpoint check_valid (x y : Z) (valid_positions : list (Z * Z)) : bool :=
  match valid_positions with
  | [] => true
  | (pos_x, pos_y) :: rest =>
      if too_close x y pos_x pos_y then false else check_valid x y rest
  end.

(** [while not valid]: draw x, draw y, check; at most [n] candidates. *)
Fixpoint find_position (n : nat) (valid_positions : list (Z * Z)) : M (Z * Z) :=
  match n with
  | O => timeout
  | S n' =>
      x <- randint x_lo x_hi ;;
      y <- randint y_lo y_hi ;;
      if check_valid x y valid_positions then ret (x, y)
      else find_position n' valid_positions
  end.

(** [for circle_i in range(n_circles)]: [k] circles still to place. *)
Fixpoint place_circles (k : nat) (valid_positions : list (Z * Z))
  : M (list (Z * Z)) :=
  match k with
  | O => ret valid_positions
  | S k' =>
      p <- find_position fuel valid_positions ;;
      place_circles k' (valid_positions ++ [p])
  end.

Definition place (n_circles : Z) : M (list (Z * Z)) :=
  place_circles (Z.to_nat n_circles) [].

(** ** One trial (lines 182-249) *)

(** [not keys or not keys[0].isnumeric() or not 0 <= int(keys[0]) <= 9],
    from left to right: [int] is called when the first key is numeric, and
    its ValueError ([None]) is not caught. *)
Definition must_wait (keys : list key) : option bool :=
  match keys with
  | [] => Some true
  | k :: _ =>
      if negb (isnumeric (unicode env) k) then Some true
      else match int (unicode env) k with
           | Some v => Some (negb ((0 <=? v) && (v <=? 9)))
           | None => None
           end
  end.

(** Lines 237-241, between the two readings of the clock. *)
Definition ask : M (list key) :=
  keys <- getKeys ;;
  wait <- or_raise (must_wait keys) ;;
  if wait then waitKeys (Some digit_keys) else ret keys.

(** Lines 244-249. *)
Definition append_trial (block_i trial_i n_circles response : Z) (rt : Q)
  : M unit :=
  modify (fun s =>
    let d := data s in
    set_data s
      {| block_n := block_n d ++ [block_i];
         trial_n := trial_n d ++ [trial_i];
         correct_response := correct_response d ++ [n_circles];
         participant_response := participant_response d ++ [response];
         was_correct := was_correct d ++ [n_circles =? response];
         rt_list := rt_list d ++ [rt] |}).

Definition run_trial (block_i trial_i : Z) : M unit :=
  cs <- get conditions ;;
  n_circles <- or_raise (cs !! Z.to_nat trial_i) ;;
  core_wait FIX_DURATION ;;;
  valid_positions <- place n_circles ;;
  clearEvents ;;;
  core_wait CIRCLE_DURATION ;;;
  time_asked <- getTime ;;
  keys <- ask ;;
  now <- getTime ;;
  let rt := (now - time_asked)%Q in
  k0 <- or_raise (head keys) ;;
  response <- or_raise (int (unicode env) k0) ;;
  append_trial block_i trial_i n_circles response rt.

(** ** The blocks (lines 169-181) *)

(** [x[i], x[j] = x[j], x[i]] *)
Definition swap (x : list Z) (i j : nat) : option (list Z) :=
  match x !! j, x !! i with
  | Some xj, Some xi => Some (<[j := xi]> (<[i := xj]> x))
  | _, _ => None
  end.

(** [random.shuffle(x)]:
    [for i in reversed(range(1, len(x))): j = randbelow(i + 1); swap].
    [shuffle_from k x] runs the iterations i = k, k-1, ..., 1. *)
Fixpoint shuffle_from (k : nat) (x : list Z) : M (list Z) :=
  match k with
  | O => ret x
  | S k' =>
      j <- randbelow (Z.of_nat k + 1) ;;
      x' <- or_raise (swap x k (Z.to_nat j)) ;;
      shuffle_from k' x'
  end.

(** [random.shuffle(conditions)]: the global list is shuffled in place. *)
Definition shuffle_conditions : M unit :=
  cs <- get conditions ;;
  cs' <- shuffle_from (length cs - 1) cs ;;
  modify (fun s => set_conditions s cs').

Definition run_block (block_i : Z) : M unit :=
  core_wait BLOCK_START_DURATION ;;;
  shuffle_conditions ;;;
  for_each (range 0 N_TRIALS) (run_trial block_i).

Definition block_sequence : M unit :=
  for_each (range 1 (N_BLOCKS + 1)) run_block.

(** START EXPERIMENT, BLOCK SEQUENCE and END OF EXPERIMENT: the two waits
    for any key around the blocks. *)
Definition experiment : M unit :=
  waitKeys None ;;;
  block_sequence ;;;
  waitKeys None ;;;
  ret tt.

Definition run : result unit := experiment initial_state.

End Program.

(** ** The results table and its summary (lines 265-285) *)

(** A row of the DataFrame: block, trial, n_objects_actual,
    n_objects_guessed, correct, rt. *)
Record Row := {
  block : Z;
  trial : Z;
  n_objects_actual : Z;
  n_objects_guessed : Z;
  correct : bool;
  rt : Q
}.

(** [zip(block_n, trial_n, correct_response, participant_response,
    was_correct, rt_list)]: stops at the end of the shortest list. *)
Fixpoint zip6 (bs ts cs ps : list Z) (ws : list bool) (rs : list Q)
  : list Row :=
  match bs, ts, cs, ps, ws, rs with
  | b :: bs', t :: ts', c :: cs', p :: ps', w :: ws', r :: rs' =>
      {| block := b; trial := t; n_objects_actual := c;
         n_objects_guessed := p; correct := w; rt := r |}
      :: zip6 bs' ts' cs' ps' ws' rs'
  | _, _, _, _, _, _ => []
  end.

Definition results (d : Data) : list Row :=
  zip6 (block_n d) (trial_n d) (correct_response d)
       (participant_response d) (was_correct d) (rt_list d).

(** A float of the summary: a number, or NaN. *)
Inductive num : Type :=
| Num (q : Q)
| NaN.

(** A boolean column is averaged as 0.0 / 1.0. *)
Definition as_number (b : bool) : Q := if b then 1%Q else 0%Q.

(** The running total and count of one group. *)
Definition Acc : Type := (Q * positive)%type.

(** One more value of key [k] enters the groups.  The groups are kept in
    ascending order of their key, as [groupby] reports them ([sort=True]
    is the default). *)
Fixpoint add_to_group (k : Z) (v : Q) (groups : list (Z * Acc))
  : list (Z * Acc) :=
  match groups with
  | [] => [(k, (v, 1%positive))]
  | (k', (total, count)) :: rest =>
      if k <? k' then (k, (v, 1%positive)) :: groups
      else if k =? k' then (k', ((total + v)%Q, Pos.succ count)) :: rest
      else (k', (total, count)) :: add_to_group k v rest
  end.

(** [groupby(key)[col]]: every row is put into the group of its key. *)
Definition groupby (key_of : Row -> Z) (col : Row -> Q) (rows : list Row)
  : list (Z * Acc) :=
  fold_left (fun groups r => add_to_group (key_of r) (col r) groups) rows [].

Definition mean_of_group (g : Z * Acc) : Z * Q :=
  let '(k, (total, count)) := g in (k, (total / inject_Z (Z.pos count))%Q).

(** [results.groupby(key)[col].agg("mean").items()] *)
Definition groupby_mean (key_of : Row -> Z) (col : Row -> Q) (rows : list Row)
  : list (Z * Q) :=
  map mean_of_group (groupby key_of col rows).

Definition total (xs : list Q) : Q := fold_left Qplus xs 0%Q.

(** [results[col].agg('mean')]: the mean of no value is NaN. *)
Definition column_mean (col : Row -> Q) (rows : list Row) : num :=
  match rows with
  | [] => NaN
  | _ => Num (total (map col rows) / inject_Z (Z.of_nat (length rows)))%Q
  end.

Definition is_correct (r : Row) : Q := as_number (correct r).

(** What the accuracy part of the summary prints, before the rounding of
    the percentages. *)
Record Accuracy := {
  per_block : list (Z * Q);
  per_circles : list (Z * Q);
  overall : num
}.

Definition accuracy (rows : list Row) : Accuracy :=
  {| per_block := groupby_mean block is_correct rows;
     per_circles := groupby_mean n_objects_actual is_correct rows;
     overall := column_mean is_correct rows |}.

(** What the RT part of the summary prints (lines 292-301), before the
    rounding of the seconds.  The response times are floats in the program
    and rationals here, and the means are the exact ones, which the
    program's means round: what is stated about them is what the means
    are, not how close a float comes to a bound. *)
Record ResponseTimes := {
  rt_per_block : list (Z * Q);
  rt_per_circles : list (Z * Q);
  rt_overall : num
}.

Definition response_times (rows : list Row) : ResponseTimes :=
  {| rt_per_block := groupby_mean block rt rows;
     rt_per_circles := groupby_mean n_objects_actual rt rows;
     rt_overall := column_mean rt rows |}.

(** * The vocabulary of the properties *)

(** ** Positions *)

(** The region of the candidates, bounds included. *)
Definition in_box (p : Z * Z) : Prop :=
  x_lo <= fst p <= x_hi /\ y_lo <= snd p <= y_hi.

(** Two centres further apart than a diameter. *)
Definition apart (p q : Z * Z) : Prop :=
  CIRCLE_DIAMETER ^ 2 < dist2 (fst p) (snd p) (fst q) (snd q).

Definition pairwise_apart (ps : list (Z * Z)) : Prop :=
  forall i j p q, i <> j -> ps !! i = Some p -> ps !! j = Some q -> apart p q.

(** The candidate that the rejection loop draws when the generator stands
    at [i]: x from the raw value [i], y from the next one. *)
Definition candidate (env : Env) (i : nat) : Z * Z :=
  (x_lo + entropy env i mod (x_hi - x_lo + 1),
   y_lo + entropy env (S i) mod (y_hi - y_lo + 1)).

(** The state after [n] more draws. *)
Definition after_draws (s : State) (n : nat) : State :=
  set_world s
    {| rng_pos := n + rng_pos (world s); clk_pos := clk_pos (world s);
       wait_pos := wait_pos (world s); ask_pos := ask_pos (world s);
       events := events (world s) |}.

(** Twenty-five points of the box, forty pixels from one another, and the
    test that a placed circle [p] is too close to the point [q]. *)
Definition anchors : list (Z * Z) :=
  list_prod [-80; -40; 0; 40; 80] [-80; -40; 0; 40; 80].

Definition blocked_by (p q : Z * Z) : bool :=
  too_close (fst q) (snd q) (fst p) (snd p).

(** The frame drawn around the stimuli (lines 132-136): a rectangle of
    width [WINDOW_X - WINDOW_PADDING] and height [WINDOW_Y - WINDOW_PADDING]
    centred on the window; [inside_border u] says that the point [u] lies
    strictly inside it. *)
Definition inside_border (u : Q * Q) : Prop :=
  (- inject_Z ((WINDOW_X - WINDOW_PADDING) / 2) < fst u
   < inject_Z ((WINDOW_X - WINDOW_PADDING) / 2))%Q /\
  (- inject_Z ((WINDOW_Y - WINDOW_PADDING) / 2) < snd u
   < inject_Z ((WINDOW_Y - WINDOW_PADDING) / 2))%Q.

(** The part of the window that is further than [WINDOW_PADDING] from its
    four edges. *)
Definition clear_of_padding (u : Q * Q) : Prop :=
  (- inject_Z (WINDOW_X / 2 - WINDOW_PADDING) < fst u
   < inject_Z (WINDOW_X / 2 - WINDOW_PADDING))%Q /\
  (- inject_Z (WINDOW_Y / 2 - WINDOW_PADDING) < snd u
   < inject_Z (WINDOW_Y / 2 - WINDOW_PADDING))%Q.

(** The points of the circle drawn at [c] (lines 218-223): the disc of
    radius [CIRCLE_RADIUS] around [c], its outline included. *)
Definition in_circle (c : Z * Z) (u : Q * Q) : Prop :=
  ((fst u - inject_Z (fst c)) * (fst u - inject_Z (fst c)) +
   (snd u - inject_Z (snd c)) * (snd u - inject_Z (snd c))
   <= inject_Z (CIRCLE_RADIUS * CIRCLE_RADIUS))%Q.

(** The square of thirteen by thirteen positions that holds [p], counted
    from the corner of the box. *)
Definition cell (p : Z * Z) : Z * Z :=
  ((fst p - x_lo) / 13, (snd p - y_lo) / 13).

Definition cells : list (Z * Z) :=
  list_prod (range 0 13) (range 0 13).

(** ** Generators, clocks and participants

    The rejection loop ends when a candidate is accepted, which no bound on
    the number of draws guarantees: a generator that repeats one point for
    ever never places a second circle.  A uniform generator produces every
    point of the box again and again with probability one; [fair_from] is
    that property of the sequence of draws, read from the draw [i] on. *)

Definition fair_from (env : Env) (i : nat) : Prop :=
  forall (j : nat) (p : Z * Z), in_box p ->
    exists k, (j <= k)%nat /\ candidate env (i + 2 * k) = p.

(** Fair from every draw on. *)
Definition fair (env : Env) : Prop := forall i, fair_from env i.

(** The clock never runs backwards. *)
Definition monotone (env : Env) : Prop :=
  forall i, (clock env i <= clock env (S i))%Q.

(** A participant who, whenever the script waits for a key, ends up pressing
    a digit key. *)
Definition answers (env : Env) : Prop :=
  forall a, exists k, In k (pressed env a) /\ key_in k digit_keys = true.

(** A key that the prompt takes for an answer. *)
Definition valid_digit (env : Env) (k : key) : Prop :=
  exists v, int (unicode env) k = Some v /\ 0 <= v <= 9.

(** A key that passes [isnumeric] and that [int] does not convert. *)
Definition unreadable (env : Env) (k : key) : Prop :=
  isnumeric (unicode env) k = true /\ int (unicode env) k = None.

(** In no timed wait is the first key typed an unreadable one. *)
Definition readable_typing (env : Env) : Prop :=
  forall w k ks, typed env w = k :: ks -> ~ unreadable env k.

(** The same session, except that the keys [ks] are typed during the
    [w]-th timed wait. *)
Definition retyped (env : Env) (w : nat) (ks : list key) : Env :=
  {| entropy := entropy env;
     clock := clock env;
     typed := fun j => if (j =? w)%nat then ks else typed env j;
     pressed := pressed env;
     unicode := unicode env |}.

(** The same state, except that the event buffer holds [ev]. *)
Definition with_events (s : State) (ev : list key) : State :=
  set_world s (set_events (world s) ev).

(** A step that depends on the bound of the rejection loop is monotone when
    a larger bound does not change a result already obtained. *)
Definition mono {A} (m : nat -> M A) : Prop :=
  forall f f' s a s', (f <= f')%nat -> m f s = Done a s' -> m f' s = Done a s'.

(** The response time of the trial number [t] of the run, counted from 0:
    the clock is read twice in every trial. *)
Definition rt_at (env : Env) (t : nat) : Q :=
  (clock env (S (2 * t)) - clock env (2 * t))%Q.

(** The clock has been read twice for each stored response time, and the
    response times are the differences of these pairs of readings. *)
Definition timed (env : Env) (s : State) : Prop :=
  clk_pos (world s) = (2 * length (rt_list (data s)))%nat /\
  rt_list (data s) = map (rt_at env) (seq 0 (length (rt_list (data s)))).

(** A result that is no exception; if it is a final state, the state has
    the property [P]. *)
Definition fine (r : result unit) (P : State -> Prop) : Prop :=
  match r with
  | Done _ s' => P s'
  | Hang => True
  | Timeout => True
  | Raise => False
  end.

(** The character [c] occurs in the string. *)
Fixpoint has_char (c : ascii) (s : string) : bool :=
  match s with
  | EmptyString => false
  | String a s' => Ascii.eqb a c || has_char c s'
  end.

(** ** Sample sessions *)

(** An excerpt of the Unicode character database: the numeric characters of
    Latin-1 (the superscripts two, three and one are digits, the fractions
    are numeric), the Arabic-Indic digits and the fullwidth digits. *)
Definition unicode_excerpt : UnicodeData := fun c =>
  if (c =? 178)%N || (c =? 179)%N || (c =? 185)%N then NT_Digit
  else if (188 <=? c)%N && (c <=? 190)%N then NT_Numeric
  else if (1632 <=? c)%N && (c <=? 1641)%N then NT_Decimal (Z.of_N c - 1632)
  else if (65296 <=? c)%N && (c <=? 65305)%N
       then NT_Decimal (Z.of_N c - 65296)
  else NT_None.

(** A generator that runs through the box row by row, for ever: draw [2k]
    is the column and draw [2k+1] the row of the [k]-th point.  The
    participant presses "5" at every prompt. *)
Definition sweep (i : nat) : Z :=
  let h := Z.of_nat i / 2 in
  if Z.even (Z.of_nat i) then h mod 163 else (h / 163) mod 163.

Definition sweep_env : Env :=
  {| entropy := sweep;
     clock := fun i => inject_Z (Z.of_nat i);
     typed := fun _ => [];
     pressed := fun _ => [name "5"];
     unicode := unicode_excerpt |}.

(** A participant who sometimes answers while the circles are still shown
    and otherwise presses the space bar before a digit. *)
Definition sample_env : Env :=
  {| entropy := fun i =>
       let z := Z.of_nat i in (z * z * 31 + 17 * z + 5) mod 997;
     clock := fun i => (Z.of_nat i # 10)%Q;
     typed := fun i =>
       if (i mod 5 =? 2)%nat then [name "7"]
       else if (i mod 7 =? 3)%nat then [name "a"; name "2"] else [];
     pressed := fun _ => [name "space"; name "0"; name "3"];
     unicode := unicode_excerpt |}.

(** A participant who types "0" while the circles are shown. *)
Definition zero_env : Env :=
  {| entropy := entropy sample_env;
     clock := clock sample_env;
     typed := fun i => if (i =? 1)%nat then [name "0"] else [];
     pressed := fun _ => [];
     unicode := unicode_excerpt |}.

(** A participant who types a superscript two (U+00B2, a key of its own on
    French keyboards) while the circles are shown. *)
Definition superscript_env : Env :=
  {| entropy := entropy sample_env;
     clock := clock sample_env;
     typed := fun i => if (i =? 1)%nat then [[178%N]] else [];
     pressed := fun _ => [name "5"];
     unicode := unicode_excerpt |}.

(** ** Rows *)

(** The results lists with one more trial. *)
Definition with_row (d : Data) (b i n r : Z) (t : Q) : Data :=
  {| block_n := block_n d ++ [b];
     trial_n := trial_n d ++ [i];
     correct_response := correct_response d ++ [n];
     participant_response := participant_response d ++ [r];
     was_correct := was_correct d ++ [n =? r];
     rt_list := rt_list d ++ [t] |}.

(** The results lists with one more row of the table. *)
Definition add_row (d : Data) (x : Row) : Data :=
  {| block_n := block_n d ++ [block x];
     trial_n := trial_n d ++ [trial x];
     correct_response := correct_response d ++ [n_objects_actual x];
     participant_response := participant_response d ++ [n_objects_guessed x];
     was_correct := was_correct d ++ [correct x];
     rt_list := rt_list d ++ [rt x] |}.

Definition add_rows (d : Data) (xs : list Row) : Data := fold_left add_row xs d.

(** The six lists all have length [n]. *)
Definition aligned (n : nat) (d : Data) : Prop :=
  length (block_n d) = n /\ length (trial_n d) = n /\
  length (correct_response d) = n /\ length (participant_response d) = n /\
  length (was_correct d) = n /\ length (rt_list d) = n.

(** A row that a trial of block [b] can add. *)
Definition row_ok (env : Env) (b : Z) (x : Row) : Prop :=
  block x = b /\
  0 <= n_objects_guessed x <= 9 /\
  correct x = (n_objects_actual x =? n_objects_guessed x) /\
  exists c, rt x = (clock env (S c) - clock env c)%Q.

(** The rows of one block: [N_TRIALS] of them, one for each entry of the
    shuffled condition list, numbered from 0. *)
Definition block_ok (env : Env) (b : Z) (cs : list Z) (xs : list Row) : Prop :=
  Forall (row_ok env b) xs /\
  map n_objects_actual xs = cs /\
  map trial xs = range 0 N_TRIALS.

(** The rows of the blocks done so far: block [j + 1] at place [j]. *)
Definition blocks_ok (env : Env) (blocks : list (list Row)) : Prop :=
  forall (j : nat) xs, blocks !! j = Some xs ->
    exists cs, cs ≡ₚ initial_conditions /\ block_ok env (1 + Z.of_nat j) cs xs.

Definition one_row : Row :=
  {| block := 1; trial := 0; n_objects_actual := 3; n_objects_guessed := 3;
     correct := true; rt := 1%Q |}.

(** ** Prefixes of the run *)

(** The script from its start to the end of the [k]-th trial of block
    [nb + 1]: [nb] whole blocks, then the start of the next block and its
    first [k] trials. *)
Definition upto (env : Env) (fuel : nat) (nb k : nat) : M unit :=
  waitKeys env None ;;;
  for_each (range 1 (1 + Z.of_nat nb)) (run_block env fuel) ;;;
  core_wait env BLOCK_START_DURATION ;;;
  shuffle_conditions env ;;;
  for_each (range 0 (Z.of_nat k)) (run_trial env fuel (1 + Z.of_nat nb)).

(** ** Groups and means *)

(** The rows of one group, and the plain mean of a list of values. *)
Definition group_rows (key_of : Row -> Z) (k : Z) (rows : list Row)
  : list Row :=
  List.filter (fun r => key_of r =? k) rows.

Definition mean (xs : list Q) : Q :=
  (total xs / inject_Z (Z.of_nat (length xs)))%Q.

Fixpoint find_group (k : Z) (groups : list (Z * Acc)) : option Acc :=
  match groups with
  | [] => None
  | (k', a) :: rest => if k =? k' then Some a else find_group k rest
  end.

Definition ascending (groups : list (Z * Acc)) : Prop :=
  StronglySorted Z.lt (map fst groups).

(** What the groups hold once the rows [rows] have been put into them. *)
Definition groups_of (key_of : Row -> Z) (col : Row -> Q)
  (groups : list (Z * Acc)) (rows : list Row) : Prop :=
  ascending groups /\
  forall k,
    match find_group k groups with
    | Some (t, c) =>
        (t == total (map col (group_rows key_of k rows)))%Q /\
        Pos.to_nat c = length (group_rows key_of k rows)
    | None => group_rows key_of k rows = []
    end.

(** * Properties *)

(** ** Reasoning about the monad *)

Lemma bind_Done {A B} (m : M A) (f : A -> M B) s b s2 :
  bind m f s = Done b s2 <-> exists a s1, m s = Done a s1 /\ f a s1 = Done b s2.
Proof.
  unfold bind. split.
  - destruct (m s) as [a s1| | |]; try discriminate. eauto.
  - intros (a & s1 & -> & H). exact H.
Qed.

Lemma ret_Done {A} (a b : A) s s' : ret a s = Done b s' <-> a = b /\ s = s'.
Proof. unfold ret. split; [intros [= -> ->] | intros [-> ->]]; auto. Qed.

Lemma or_raise_Done {A} (o : option A) a s s' :
  or_raise o s = Done a s' <-> o = Some a /\ s = s'.
Proof.
  destruct o as [x|]; simpl; unfold ret, raise; split.
  - intros [= -> ->]; auto.
  - intros [[= ->] ->]; auto.
  - discriminate.
  - intros [? _]; discriminate.
Qed.

(** Takes apart a hypothesis saying that a sequence of steps finished. *)
Ltac run_inv H :=
  repeat match type of H with
  | bind _ _ _ = Done _ _ =>
      let a := fresh "v" in
      let s1 := fresh "s" in
      let H1 := fresh "Hstep" in
      apply bind_Done in H; destruct H as (a & s1 & H1 & H)
  end.

(** A loop over a list keeps what every pass keeps. *)
Lemma for_each_invariant {A} (I : nat -> State -> Prop) (l : list A)
      (body : A -> M unit) :
  (forall k x s s', l !! k = Some x -> I k s -> body x s = Done tt s' ->
                    I (S k) s') ->
  forall s s', I O s -> for_each l body s = Done tt s' -> I (length l) s'.
Proof.
  revert I. induction l as [|x l IH]; intros I Hbody s s' H0 Hrun.
  - simpl in Hrun. apply ret_Done in Hrun as [_ <-]. exact H0.
  - simpl in Hrun. run_inv Hrun. destruct v.
    apply (IH (fun k => I (S k))) with (s := s0); auto.
    + intros k y t t' Hk. apply (Hbody (S k) y). exact Hk.
    + apply (Hbody O x s s0); auto.
Qed.

Lemma range_lookup lo hi (k : nat) :
  (Z.of_nat k < hi - lo) -> range lo hi !! k = Some (lo + Z.of_nat k).
Proof.
  intros Hk. unfold range.
  rewrite list_lookup_fmap, lookup_seq_lt by lia. reflexivity.
Qed.

Lemma range_length lo hi : length (range lo hi) = Z.to_nat (hi - lo).
Proof. unfold range. now rewrite length_map, length_seq. Qed.

Lemma range_lookup_Some lo hi (k : nat) x :
  range lo hi !! k = Some x -> x = lo + Z.of_nat k /\ Z.of_nat k < hi - lo.
Proof.
  intros H. assert (Hlt : (k < length (range lo hi))%nat)
    by (eapply lookup_lt_Some; eauto).
  rewrite range_length in Hlt.
  rewrite range_lookup in H by lia. injection H as <-. lia.
Qed.

(** ** The random generator *)

Section Generator.

Variable env : Env.

Lemma randbelow_Done n s r s' :
  randbelow env n s = Done r s' <->
  r = entropy env (rng_pos (world s)) mod n /\
  s' = set_world s (advance_rng (world s)).
Proof. unfold randbelow. split; [intros [= <- <-] | intros [-> ->]]; auto. Qed.

Lemma randint_Done a b s r s' :
  randint env a b s = Done r s' <->
  r = a + entropy env (rng_pos (world s)) mod (b - a + 1) /\
  s' = set_world s (advance_rng (world s)).
Proof.
  unfold randint. rewrite bind_Done. split.
  - intros (r0 & s1 & H1 & H2). apply randbelow_Done in H1 as [-> ->].
    apply ret_Done in H2 as [<- <-]. auto.
  - intros [-> ->]. eexists _, _. split; [apply randbelow_Done; eauto|].
    reflexivity.
Qed.

Lemma randint_bounds a b s r s' :
  a <= b -> randint env a b s = Done r s' -> a <= r <= b.
Proof.
  intros Hab H. apply randint_Done in H as [-> _].
  pose proof (Z.mod_pos_bound (entropy env (rng_pos (world s))) (b - a + 1)).
  lia.
Qed.

End Generator.

(** ** The placement loop *)

Lemma apart_sym p q : apart p q -> apart q p.
Proof. unfold apart, dist2. intros H. nia. Qed.

Lemma check_valid_Forall x y ps :
  check_valid x y ps = true <-> Forall (apart (x, y)) ps.
Proof.
  induction ps as [|[px py] ps IH]; simpl.
  - split; auto.
  - unfold too_close at 1.
    destruct (Z.leb_spec (dist2 x y px py) (CIRCLE_DIAMETER ^ 2)).
    + split; [discriminate|]. intros H'. inversion H' as [|? ? Hap _]; subst.
      unfold apart in Hap; simpl in Hap. lia.
    + rewrite IH. split; [intros; constructor; auto | intros H'; now inversion H'].
Qed.

Lemma pairwise_apart_nil : pairwise_apart [].
Proof. intros i j p q _ H. rewrite lookup_nil in H. discriminate. Qed.

Lemma pairwise_apart_snoc ps p :
  pairwise_apart ps -> Forall (apart p) ps -> pairwise_apart (ps ++ [p]).
Proof.
  intros Hps Hp i j a b Hij Ha Hb.
  rewrite Forall_lookup in Hp.
  apply lookup_snoc_Some in Ha as [[Hi Ha]|[Hi <-]];
    apply lookup_snoc_Some in Hb as [[Hj Hb]|[Hj <-]].
  - eapply Hps; eauto.
  - apply apart_sym. eapply Hp; eauto.
  - eapply Hp; eauto.
  - congruence.
Qed.

Lemma x_lo_value : x_lo = -81. Proof. reflexivity. Qed.
Lemma x_hi_value : x_hi = 81. Proof. reflexivity. Qed.
Lemma y_lo_value : y_lo = -81. Proof. reflexivity. Qed.
Lemma y_hi_value : y_hi = 81. Proof. reflexivity. Qed.

Section Placement.

Variable env : Env.

Lemma candidate_in_box i : in_box (candidate env i).
Proof.
  unfold in_box, candidate; cbn [fst snd].
  pose proof (Z.mod_pos_bound (entropy env i) (x_hi - x_lo + 1)).
  pose proof (Z.mod_pos_bound (entropy env (S i)) (y_hi - y_lo + 1)).
  rewrite x_lo_value, x_hi_value, y_lo_value, y_hi_value in *. lia.
Qed.

Lemma after_draws_plus s n m :
  after_draws (after_draws s n) m = after_draws s (n + m).
Proof. unfold after_draws, set_world; simpl. do 2 f_equal. lia. Qed.

(** One pass of the loop body: two draws. *)
Lemma find_position_unfold n ps s :
  find_position env (S n) ps s =
  let p := candidate env (rng_pos (world s)) in
  if check_valid (fst p) (snd p) ps then Done p (after_draws s 2)
  else find_position env n ps (after_draws s 2).
Proof.
  destruct s as [[r c w a e] cs d].
  cbn [find_position]. unfold bind, randint, randbelow, ret, candidate.
  cbn. destruct (check_valid _ _ ps); reflexivity.
Qed.

(** The loop returns the first candidate env that is clear of the positions
    already taken, and has then drawn an even number of raw values. *)
Lemma find_position_Done n ps : forall s p s',
  find_position env n ps s = Done p s' ->
  exists k, (k < n)%nat /\
    p = candidate env (rng_pos (world s) + 2 * k) /\
    check_valid (fst p) (snd p) ps = true /\
    s' = after_draws s (2 * k + 2).
Proof.
  induction n as [|n IH]; intros s p s' H; [discriminate|].
  rewrite find_position_unfold in H. cbv zeta in H.
  match type of H with (if ?c then _ else _) = _ => destruct c eqn:Hv end.
  - injection H as <- <-. exists O.
    replace (rng_pos (world s) + 2 * 0)%nat with (rng_pos (world s)) by lia.
    repeat split; auto. lia.
  - apply IH in H as (k & Hk & Hp & Hc & ->). exists (S k).
    assert (Hr : (rng_pos (world (after_draws s 2)) + 2 * k =
                  rng_pos (world s) + 2 * S k)%nat)
      by (unfold after_draws; cbn [world set_world rng_pos]; lia).
    rewrite Hr in Hp. rewrite after_draws_plus.
    split; [lia|]. split; [exact Hp|]. split; [exact Hc|]. f_equal. lia.
Qed.

(** A candidate env that is clear, [k] draws ahead, ends the loop at the latest
    there. *)
Lemma find_position_finds k : forall n ps s,
  (k < n)%nat ->
  (let p := candidate env (rng_pos (world s) + 2 * k) in
   check_valid (fst p) (snd p) ps = true) ->
  exists p s', find_position env n ps s = Done p s'.
Proof.
  induction k as [|k IH]; intros n ps s Hn Hclear;
    (destruct n as [|n]; [lia|]); rewrite find_position_unfold; cbv zeta in *.
  - replace (rng_pos (world s) + 2 * 0)%nat with (rng_pos (world s)) in Hclear
      by lia.
    rewrite Hclear. eauto.
  - match goal with |- context [if ?c then _ else _] => destruct c end;
      [eauto|].
    apply IH; [lia|]. unfold after_draws; cbn [world set_world rng_pos].
    replace (2 + rng_pos (world s) + 2 * k)%nat
      with (rng_pos (world s) + 2 * S k)%nat by lia.
    exact Hclear.
Qed.

Lemma find_position_more_fuel n n' ps s p s' :
  (n <= n')%nat ->
  find_position env n ps s = Done p s' -> find_position env n' ps s = Done p s'.
Proof.
  revert n' s. induction n as [|n IH]; intros n' s Hn H; [discriminate|].
  destruct n' as [|n']; [lia|].
  rewrite find_position_unfold in *. cbv zeta in *.
  match goal with |- context [if ?c then _ else _] => destruct c end; auto.
  apply IH; auto. lia.
Qed.

Lemma place_circles_more_fuel fuel fuel' k : forall acc s ps s',
  (fuel <= fuel')%nat ->
  place_circles env fuel k acc s = Done ps s' ->
  place_circles env fuel' k acc s = Done ps s'.
Proof.
  induction k as [|k IH]; intros acc s ps s' Hf H; simpl in *; auto.
  run_inv H. apply bind_Done. exists v, s0. split.
  - eapply find_position_more_fuel; eauto.
  - eapply IH; eauto.
Qed.

(** What the loop over the circles returns, when it returns. *)
Lemma place_circles_Done fuel k : forall acc s ps s',
  Forall in_box acc -> pairwise_apart acc ->
  place_circles env fuel k acc s = Done ps s' ->
  length ps = (length acc + k)%nat /\ Forall in_box ps /\ pairwise_apart ps /\
  exists n, s' = after_draws s (2 * n).
Proof.
  induction k as [|k IH]; intros acc s ps s' Hbox Hap H; simpl in H.
  - apply ret_Done in H as [<- <-]. repeat split; auto.
    exists O. destruct s as [[] ? ?]; reflexivity.
  - run_inv H. apply find_position_Done in Hstep as (j & _ & Hv & Hc & ->).
    apply IH in H as (Hlen & Hbox' & Hap' & n & ->).
    + rewrite length_app in Hlen; simpl in Hlen.
      repeat split; auto; try lia.
      exists (j + 1 + n)%nat. rewrite after_draws_plus. f_equal. lia.
    + apply Forall_app. split; auto. constructor; auto.
      rewrite Hv. apply candidate_in_box.
    + apply pairwise_apart_snoc; auto.
      apply check_valid_Forall in Hc. now destruct v.
Qed.

End Placement.

(** ** Room for ten circles

    A circle already placed is too close to at most one of the anchors, so
    fewer than twenty-five circles always leave one of them free. *)

Lemma anchors_in_box : Forall in_box anchors.
Proof.
  apply List.Forall_forall. intros q Hq. unfold in_box.
  rewrite x_lo_value, x_hi_value, y_lo_value, y_hi_value.
  unfold anchors in Hq; simpl in Hq.
  repeat (destruct Hq as [<-|Hq]; [simpl; lia|]). destruct Hq.
Qed.

Lemma anchors_NoDup : List.NoDup anchors.
Proof.
  apply NoDup_ListNoDup. apply (bool_decide_unpack _). vm_compute. exact I.
Qed.

Lemma anchors_far q q' :
  In q anchors -> In q' anchors -> q <> q' ->
  1296 < dist2 (fst q) (snd q) (fst q') (snd q').
Proof.
  assert (H : forallb (fun a => forallb (fun b =>
                ((fst a =? fst b) && (snd a =? snd b))
                || (1296 <? dist2 (fst a) (snd a) (fst b) (snd b)))
              anchors) anchors = true) by (vm_compute; reflexivity).
  intros Hq Hq' Hne. rewrite forallb_forall in H.
  specialize (H q Hq). rewrite forallb_forall in H. specialize (H q' Hq').
  apply orb_true_iff in H as [H|H].
  - apply andb_true_iff in H as [H1 H2].
    apply Z.eqb_eq in H1, H2. destruct q, q'; simpl in *; congruence.
  - now apply Z.ltb_lt in H.
Qed.

Lemma blocked_by_one p q q' :
  In q anchors -> In q' anchors ->
  blocked_by p q = true -> blocked_by p q' = true -> q = q'.
Proof.
  intros Hq Hq' Hb Hb'.
  destruct (decide (q = q')) as [|Hne]; [assumption|exfalso].
  pose proof (anchors_far q q' Hq Hq' Hne) as Hfar.
  unfold blocked_by, too_close in Hb, Hb'.
  apply Z.leb_le in Hb, Hb'.
  change (CIRCLE_DIAMETER ^ 2) with 324 in Hb, Hb'.
  unfold dist2 in *. destruct p as [px py], q as [qx qy], q' as [qx' qy'].
  cbn [fst snd] in *. rewrite !Z.pow_2_r in *.
  pose proof (Z.square_nonneg ((qx - px) + (qx' - px))).
  pose proof (Z.square_nonneg ((qy - py) + (qy' - py))).
  lia.
Qed.

Lemma filter_blocked_length p qs :
  List.NoDup qs -> incl qs anchors ->
  (length qs <= S (length (List.filter (fun q => negb (blocked_by p q)) qs)))%nat.
Proof.
  induction qs as [|q qs IH]; intros Hnd Hin; simpl; [lia|].
  inversion Hnd as [|? ? Hq Hnd']; subst.
  assert (Hin' : incl qs anchors) by (intros a Ha; apply Hin; now right).
  destruct (blocked_by p q) eqn:Hb; simpl.
  - assert (Hall : List.filter (fun q => negb (blocked_by p q)) qs = qs).
    { apply forallb_filter_id. apply forallb_forall. intros q' Hq'.
      destruct (blocked_by p q') eqn:Hb'; auto. exfalso.
      apply Hq.
      assert (Heq : q = q').
      { apply (blocked_by_one p); auto; apply Hin; simpl; auto. }
      now rewrite Heq. }
    rewrite Hall. lia.
  - specialize (IH Hnd' Hin'). lia.
Qed.

Lemma free_among ps : forall qs,
  List.NoDup qs -> incl qs anchors -> (length ps < length qs)%nat ->
  exists q, In q qs /\ check_valid (fst q) (snd q) ps = true.
Proof.
  induction ps as [|p ps IH]; intros qs Hnd Hin Hlen.
  - destruct qs as [|q qs]; [simpl in Hlen; lia|]. exists q. split; [now left|auto].
  - set (f := fun q => negb (blocked_by p q)).
    destruct (IH (List.filter f qs)) as (q & Hq & Hc).
    + now apply List.NoDup_filter.
    + intros a Ha. apply Hin. apply filter_In in Ha. tauto.
    + pose proof (filter_blocked_length p qs Hnd Hin). simpl in Hlen.
      fold f in H. lia.
    + apply filter_In in Hq as [Hq Hf]. exists q. split; auto.
      destruct p as [px py]. simpl. unfold f, blocked_by in Hf. simpl in Hf.
      destruct (too_close q.1 q.2 px py); [discriminate|exact Hc].
Qed.

(** Whatever fewer than twenty-five positions are taken, some point of the
    box is clear of all of them. *)
Lemma free_position ps :
  (length ps < 25)%nat ->
  exists q, in_box q /\ check_valid (fst q) (snd q) ps = true.
Proof.
  intros Hlen.
  destruct (free_among ps anchors anchors_NoDup (incl_refl _)) as (q & Hq & Hc).
  - exact Hlen.
  - exists q. split; auto.
    pose proof anchors_in_box as Hb. rewrite List.Forall_forall in Hb. auto.
Qed.

(** ** Termination of the placement *)

Lemma fair_from_later env i m :
  fair_from env i -> fair_from env (2 * m + i).
Proof.
  intros H j p Hp. destruct (H (j + m)%nat p Hp) as (k & Hk & Hc).
  exists (k - m)%nat. split; [lia|].
  replace (2 * m + i + 2 * (k - m))%nat with (i + 2 * k)%nat by lia. exact Hc.
Qed.

Lemma place_circles_total env k : forall acc s,
  (length acc + k <= 25)%nat ->
  fair_from env (rng_pos (world s)) ->
  exists fuel ps s', place_circles env fuel k acc s = Done ps s'.
Proof.
  induction k as [|k IH]; intros acc s Hlen Hfair.
  - exists O, acc, s. reflexivity.
  - destruct (free_position acc) as (q & Hq & Hclear); [lia|].
    destruct (Hfair O q Hq) as (k0 & _ & Hk0).
    destruct (find_position_finds env k0 (S k0) acc s) as (p & s1 & Hfind).
    { lia. }
    { cbv zeta. now rewrite Hk0. }
    pose proof (find_position_Done env _ _ _ _ _ Hfind) as (j & _ & _ & _ & Hs1).
    destruct (IH (acc ++ [p]) s1) as (fuel2 & ps & s' & Hrest).
    { rewrite length_app; simpl; lia. }
    { rewrite Hs1. unfold after_draws; cbn [world set_world rng_pos].
      replace (2 * j + 2 + rng_pos (world s))%nat
        with (2 * (j + 1) + rng_pos (world s))%nat by lia.
      now apply fair_from_later. }
    exists (Nat.max (S k0) fuel2), ps, s'.
    cbn [place_circles]. apply bind_Done. exists p, s1. split.
    + eapply find_position_more_fuel; [|exact Hfind]. lia.
    + eapply place_circles_more_fuel; [|exact Hrest]. lia.
Qed.

Lemma sweep_even (K : Z) : 0 <= K -> sweep (Z.to_nat (2 * K)) = K mod 163.
Proof.
  intros HK. unfold sweep. rewrite Z2Nat.id by lia.
  replace (Z.even (2 * K)) with true
    by (symmetry; apply Z.even_spec; now exists K).
  replace (2 * K / 2) with K by (apply Z.div_unique with 0; lia).
  reflexivity.
Qed.

Lemma sweep_odd (K : Z) :
  0 <= K -> sweep (Z.to_nat (2 * K + 1)) = (K / 163) mod 163.
Proof.
  intros HK. unfold sweep. rewrite Z2Nat.id by lia.
  replace (Z.even (2 * K + 1)) with false
    by (symmetry; rewrite <- Z.negb_odd; apply negb_false_iff, Z.odd_spec;
        now exists K).
  replace ((2 * K + 1) / 2) with K by (apply Z.div_unique with 1; lia).
  reflexivity.
Qed.

Lemma sweep_candidate_even (K : Z) :
  0 <= K ->
  candidate sweep_env (Z.to_nat (2 * K)) =
  (-81 + K mod 163, -81 + (K / 163) mod 163).
Proof.
  intros HK. unfold candidate. cbn [entropy sweep_env].
  rewrite x_lo_value, x_hi_value, y_lo_value, y_hi_value.
  change (81 - -81 + 1) with 163.
  replace (S (Z.to_nat (2 * K))) with (Z.to_nat (2 * K + 1)) by lia.
  rewrite sweep_even, sweep_odd by lia.
  now rewrite !Z.mod_mod by lia.
Qed.

Lemma sweep_candidate_odd (K : Z) :
  0 <= K ->
  candidate sweep_env (Z.to_nat (2 * K + 1)) =
  (-81 + (K / 163) mod 163, -81 + (K + 1) mod 163).
Proof.
  intros HK. unfold candidate. cbn [entropy sweep_env].
  rewrite x_lo_value, x_hi_value, y_lo_value, y_hi_value.
  change (81 - -81 + 1) with 163.
  replace (S (Z.to_nat (2 * K + 1))) with (Z.to_nat (2 * (K + 1))) by lia.
  rewrite sweep_even, sweep_odd by lia.
  now rewrite !Z.mod_mod by lia.
Qed.

(** The sweep is fair wherever the loop starts to draw. *)
Lemma sweep_fair : fair sweep_env.
Proof.
  intros i j [px py] [Hx Hy]. cbn [fst snd] in Hx, Hy.
  rewrite x_lo_value, x_hi_value in Hx. rewrite y_lo_value, y_hi_value in Hy.
  set (a := px + 81). set (b := py + 81).
  assert (Ha : 0 <= a < 163) by (unfold a; lia).
  assert (Hb : 0 <= b < 163) by (unfold b; lia).
  set (J := Z.of_nat (j + i)).
  destruct (Nat.Even_or_Odd i) as [[e He]|[e He]].
  - set (K := a + 163 * (b + 163 * J)).
    assert (HK : Z.of_nat (j + e) <= K) by (unfold K, J; lia).
    exists (Z.to_nat K - e)%nat. split; [lia|].
    replace (i + 2 * (Z.to_nat K - e))%nat with (Z.to_nat (2 * K)) by lia.
    rewrite sweep_candidate_even by lia.
    replace (K mod 163) with a
      by (apply Z.mod_unique with (b + 163 * J); unfold K; lia).
    replace (K / 163) with (b + 163 * J)
      by (apply Z.div_unique with a; unfold K; lia).
    replace ((b + 163 * J) mod 163) with b
      by (apply Z.mod_unique with J; lia).
    unfold a, b. f_equal; lia.
  - set (b0 := (b + 162) mod 163).
    assert (Hb0 : 0 <= b0 < 163) by (apply Z.mod_pos_bound; lia).
    assert (Hb1 : (b0 + 1) mod 163 = b).
    { unfold b0. destruct (Z.eq_dec b 0) as [->|Hne]; [reflexivity|].
      replace ((b + 162) mod 163) with (b - 1)
        by (apply Z.mod_unique with 1; lia).
      replace (b - 1 + 1) with b by lia. apply Z.mod_small; lia. }
    set (K := b0 + 163 * (a + 163 * J)).
    assert (HK : Z.of_nat (j + e) <= K) by (unfold K, J; lia).
    exists (Z.to_nat K - e)%nat. split; [lia|].
    replace (i + 2 * (Z.to_nat K - e))%nat with (Z.to_nat (2 * K + 1)) by lia.
    rewrite sweep_candidate_odd by lia.
    replace (K / 163) with (a + 163 * J)
      by (apply Z.div_unique with b0; unfold K; lia).
    replace ((a + 163 * J) mod 163) with a
      by (apply Z.mod_unique with J; lia).
    replace ((K + 1) mod 163) with b.
    2:{ unfold K. replace (b0 + 163 * (a + 163 * J) + 1)
          with ((b0 + 1) + (a + 163 * J) * 163) by lia.
        now rewrite Z.mod_add by lia. }
    unfold a, b. f_equal; lia.
Qed.

Lemma sweep_answers : answers sweep_env.
Proof. intros a. exists (name "5"). split; [now left|reflexivity]. Qed.

Lemma sweep_readable : readable_typing sweep_env.
Proof. intros w k ks H. discriminate. Qed.

Lemma sample_readable : readable_typing sample_env.
Proof.
  intros w k ks H [Hnum Hint]. unfold sample_env in H. cbn [typed] in H.
  destruct (w mod 5 =? 2)%nat; [|destruct (w mod 7 =? 3)%nat];
    first [discriminate H | injection H as <- _; discriminate].
Qed.

(** C2.  With the program's window (600 by 600), padding (200) and circle
    diameter (18), and for every number of circles [n] from 1 to 10:
    - whenever the placement loop returns, it returns exactly [n] positions,
      every one with x and y in [-82, 82], and every two of them at different
      places of the list further apart than 18 (their squared distance
      exceeds 18^2);
    - with a generator that keeps producing every point of its range, the
      loop does return: from some bound on the number of draws on, always
      with the same positions. *)
Theorem placement_terminates_separated env s n :
  1 <= n <= 10 ->
  (forall fuel ps s',
     place env fuel n s = Done ps s' ->
     Z.of_nat (length ps) = n /\
     Forall (fun p => -82 <= fst p <= 82 /\ -82 <= snd p <= 82) ps /\
     (forall i j p q, i <> j -> ps !! i = Some p -> ps !! j = Some q ->
        18 ^ 2 < (fst p - fst q) ^ 2 + (snd p - snd q) ^ 2)) /\
  (fair_from env (rng_pos (world s)) ->
   exists fuel ps s',
     forall fuel', (fuel <= fuel')%nat -> place env fuel' n s = Done ps s').
Proof.
  intros Hn. split.
  - intros fuel ps s' Hrun.
    pose proof (place_circles_Done env fuel _ [] s ps s'
                  (List.Forall_nil _) pairwise_apart_nil Hrun)
      as (Hlen & Hbox & Hap & _).
    repeat split.
    + simpl in Hlen. lia.
    + eapply Forall_impl; [exact Hbox|]. intros p [Hx Hy].
      rewrite x_lo_value, x_hi_value in Hx.
      rewrite y_lo_value, y_hi_value in Hy. lia.
    + intros i j p q Hij Hp Hq. exact (Hap i j p q Hij Hp Hq).
  - intros Hfair.
    destruct (place_circles_total env (Z.to_nat n) [] s)
      as (fuel & ps & s' & Hrun); [simpl; lia|exact Hfair|].
    exists fuel, ps, s'. intros fuel' Hf. unfold place.
    eapply place_circles_more_fuel; eauto.
Qed.

Lemma placement_terminates_separated_witness :
  exists fuel ps s',
    place sweep_env fuel 5 initial_state = Done ps s' /\
    Z.of_nat (length ps) = 5 /\
    Forall (fun p => -82 <= fst p <= 82 /\ -82 <= snd p <= 82) ps /\
    (forall i j p q, i <> j -> ps !! i = Some p -> ps !! j = Some q ->
       18 ^ 2 < (fst p - fst q) ^ 2 + (snd p - snd q) ^ 2).
Proof.
  assert (Hn : 1 <= 5 <= 10) by lia.
  destruct (placement_terminates_separated sweep_env initial_state 5 Hn)
    as [Hsafe Hlive].
  destruct (Hlive (sweep_fair O)) as (fuel & ps & s' & Hrun).
  exists fuel, ps, s'. split; [exact (Hrun fuel (Nat.le_refl _))|].
  exact (Hsafe fuel ps s' (Hrun fuel (Nat.le_refl _))).
Defined.

(** ** The range of the candidates *)

(** C5, as the code has it.  Each candidate coordinate comes from
    [random.randint] over the integers from -81 to 81, that is the window's
    half-width less the padding, less the whole diameter (not half of it)
    and less one: every integer of that interval can be drawn, and nothing
    else. *)
Theorem candidate_interval (v : Z) :
  ((exists env s s', randint env x_lo x_hi s = Done v s') <->
   - (WINDOW_X / 2 - WINDOW_PADDING - CIRCLE_DIAMETER - 1) <= v
     <= WINDOW_X / 2 - WINDOW_PADDING - CIRCLE_DIAMETER - 1) /\
  ((exists env s s', randint env y_lo y_hi s = Done v s') <->
   - (WINDOW_Y / 2 - WINDOW_PADDING - CIRCLE_DIAMETER - 1) <= v
     <= WINDOW_Y / 2 - WINDOW_PADDING - CIRCLE_DIAMETER - 1).
Proof.
  change (WINDOW_X / 2 - WINDOW_PADDING - CIRCLE_DIAMETER - 1) with 81.
  change (WINDOW_Y / 2 - WINDOW_PADDING - CIRCLE_DIAMETER - 1) with 81.
  rewrite x_lo_value, x_hi_value, y_lo_value, y_hi_value.
  assert (Hdraw : (exists env s s', randint env (-81) 81 s = Done v s') <->
                  - 81 <= v <= 81).
  { split.
    - intros (env & s & s' & H). eapply randint_bounds in H; lia.
    - intros Hv.
      exists {| entropy := fun _ => v + 81; clock := fun _ => 0%Q;
                typed := fun _ => []; pressed := fun _ => [];
                unicode := unicode_excerpt |}.
      exists initial_state. eexists. apply randint_Done. split; [|reflexivity].
      cbn [entropy]. change (81 - -81 + 1) with 163.
      rewrite Z.mod_small by lia. lia. }
  split; exact Hdraw.
Qed.

(** C5, as the specification has it: 91 = 300 - 200 - 9 lies in the interval
    it names and is no candidate coordinate. *)
Lemma candidate_never_91 :
  - (300 - 200 - 9) <= 91 <= 300 - 200 - 9 /\
  ~ (exists env s s', randint env x_lo x_hi s = Done 91 s').
Proof.
  split; [lia|]. intros (env & s & s' & H).
  apply randint_bounds in H; rewrite x_lo_value, x_hi_value in *; lia.
Qed.

(** ** The response prompt *)

Lemma key_eqb_eq (a b : key) : key_eqb a b = true -> a = b.
Proof.
  revert b. induction a as [|x a IH]; intros [|y b]; simpl;
    try discriminate; [reflexivity|].
  intros H. apply andb_true_iff in H as [Hx H].
  apply N.eqb_eq in Hx. apply IH in H. congruence.
Qed.

(** The ten digit keys are ASCII: whatever the database says about the
    other characters, [int] gives their digit. *)
Lemma digit_key_int u k :
  key_in k digit_keys = true -> exists v, int u k = Some v /\ 0 <= v <= 9.
Proof.
  unfold key_in, digit_keys. cbn [existsb map]. intros H.
  repeat (apply orb_true_iff in H as [H|H];
          [apply key_eqb_eq in H; subst k; eexists; split;
           [reflexivity|compute; intuition discriminate]|]).
  discriminate.
Qed.

Lemma must_wait_false env keys :
  must_wait env keys = Some false ->
  exists k rest v,
    keys = k :: rest /\ int (unicode env) k = Some v /\ 0 <= v <= 9.
Proof.
  destruct keys as [|k rest]; simpl; [discriminate|].
  destruct (isnumeric (unicode env) k); simpl; [|discriminate].
  destruct (int (unicode env) k) as [v|] eqn:Hint; [|discriminate].
  intros [= H]. apply negb_false_iff, andb_true_iff in H as [H1 H2].
  apply Z.leb_le in H1, H2.
  exists k, rest, v. repeat split; auto; lia.
Qed.

(** The wait returns the first press that the key list accepts; the presses
    it passed over are what the buffer holds afterwards. *)
Lemma await_Some keyList ks : forall skipped0 k skipped,
  await keyList ks skipped0 = Some (k, skipped) ->
  exists passed rest,
    ks = passed ++ k :: rest /\ skipped = skipped0 ++ passed /\
    accepts keyList k = true /\
    forallb (fun k' => negb (accepts keyList k')) passed = true.
Proof.
  induction ks as [|k' ks IH]; intros skipped0 k skipped H; simpl in H;
    [discriminate|].
  destruct (accepts keyList k') eqn:Hacc.
  - injection H as <- <-. exists [], ks. rewrite app_nil_r. auto.
  - apply IH in H as (passed & rest & -> & -> & Hk & Hpassed).
    exists (k' :: passed), rest. rewrite <- app_assoc. simpl.
    rewrite Hacc. auto.
Qed.

Lemma await_None keyList ks : forall skipped0,
  await keyList ks skipped0 = None <->
  forallb (fun k' => negb (accepts keyList k')) ks = true.
Proof.
  induction ks as [|k' ks IH]; intros skipped0; simpl; [tauto|].
  destruct (accepts keyList k'); simpl; [split; discriminate|apply IH].
Qed.

Section Trial.

Variable env : Env.
Variable fuel : nat.

(** What [ask] does with the buffer it finds. *)
Lemma ask_result s :
  let buffered := events (world s) in
  ask env s =
  match must_wait env buffered with
  | Some true =>
      match await (Some digit_keys) (pressed env (ask_pos (world s))) [] with
      | Some (k, rest) => Done [k] (set_world s (after_ask (world s) rest))
      | None => Hang
      end
  | Some false => Done buffered (set_world s (set_events (world s) []))
  | None => Raise
  end.
Proof.
  destruct s as [[r c w a e] cs d]. unfold ask, bind, getKeys, waitKeys, ret.
  cbn. destruct (must_wait env e) as [[|]|]; reflexivity.
Qed.

Lemma place_Done n s ps s' :
  place env fuel n s = Done ps s' -> exists m, s' = after_draws s (2 * m).
Proof.
  unfold place. intros H.
  apply place_circles_Done in H as (_ & _ & _ & H); auto.
  apply pairwise_apart_nil.
Qed.

(** A trial that finishes.  The keys that count are those typed while the
    circles were shown ([stim]) and, if the trial had to wait, those pressed
    during the wait ([later]). *)
Lemma run_trial_Done b i s s' :
  run_trial env fuel b i s = Done tt s' ->
  let stim := typed env (S (wait_pos (world s))) in
  let later := pressed env (ask_pos (world s)) in
  let c := clk_pos (world s) in
  exists n k r (draws asked : nat) (left : list key),
    conditions s !! Z.to_nat i = Some n /\
    int (unicode env) k = Some r /\
    ((must_wait env stim = Some false /\ head stim = Some k /\
      asked = O /\ left = []) \/
     (must_wait env stim = Some true /\
      await (Some digit_keys) later [] = Some (k, left) /\ asked = 1%nat)) /\
    conditions s' = conditions s /\
    data s' = with_row (data s) b i n r (clock env (S c) - clock env c)%Q /\
    world s' = {| rng_pos := (draws + rng_pos (world s))%nat;
                  clk_pos := S (S c);
                  wait_pos := S (S (wait_pos (world s)));
                  ask_pos := (asked + ask_pos (world s))%nat;
                  events := left |}.
Proof.
  intros H. destruct s as [[r0 c0 w0 a0 e0] cs d].
  cbn [world clk_pos wait_pos ask_pos rng_pos conditions data].
  unfold run_trial in H. run_inv H.
  unfold get in Hstep. injection Hstep as <- <-.
  apply or_raise_Done in Hstep0 as [Hn <-]. cbn [conditions] in Hn.
  unfold core_wait in Hstep1. injection Hstep1 as _ <-.
  apply place_Done in Hstep2 as [m ->].
  unfold clearEvents, modify in Hstep3. injection Hstep3 as _ <-.
  unfold core_wait in Hstep4. injection Hstep4 as _ <-.
  unfold getTime in Hstep5. injection Hstep5 as <- <-.
  rewrite ask_result in Hstep6.
  cbn -[must_wait await digit_keys] in Hstep6.
  apply or_raise_Done in Hstep8 as [Hk <-].
  apply or_raise_Done in Hstep9 as [Hr <-].
  unfold append_trial, modify in H.
  destruct (must_wait env (typed env (S w0))) as [[|]|] eqn:Hmw;
    [| |discriminate].
  - destruct (await (Some digit_keys) (pressed env a0) []) as [[k left]|] eqn:Haw;
      [|discriminate].
    injection Hstep6 as <- <-.
    unfold getTime in Hstep7. injection Hstep7 as <- <-.
    injection H as <-. cbn in Hk. injection Hk as <-.
    exists v0, k, v9, (2 * m)%nat, 1%nat, left. cbn.
    repeat split; auto.
  - injection Hstep6 as <- <-.
    unfold getTime in Hstep7. injection Hstep7 as <- <-.
    injection H as <-.
    exists v0, v8, v9, (2 * m)%nat, O, []. cbn.
    repeat split; auto.
Qed.

End Trial.

(** ** The results lists, row by row *)

Lemma add_rows_app d xs ys : add_rows d (xs ++ ys) = add_rows (add_rows d xs) ys.
Proof. apply fold_left_app. Qed.

Lemma add_rows_columns xs : forall d,
  block_n (add_rows d xs) = block_n d ++ map block xs /\
  trial_n (add_rows d xs) = trial_n d ++ map trial xs /\
  correct_response (add_rows d xs) = correct_response d ++ map n_objects_actual xs /\
  participant_response (add_rows d xs)
    = participant_response d ++ map n_objects_guessed xs /\
  was_correct (add_rows d xs) = was_correct d ++ map correct xs /\
  rt_list (add_rows d xs) = rt_list d ++ map rt xs.
Proof.
  induction xs as [|x xs IH]; intros d; simpl.
  - rewrite !app_nil_r. auto 10.
  - destruct (IH (add_row d x)) as (H1 & H2 & H3 & H4 & H5 & H6).
    unfold add_rows in *. rewrite H1, H2, H3, H4, H5, H6. simpl.
    rewrite <- !app_assoc. auto 10.
Qed.

Lemma aligned_add_rows n d xs :
  aligned n d -> aligned (n + length xs) (add_rows d xs).
Proof.
  unfold aligned. intros (H1 & H2 & H3 & H4 & H5 & H6).
  destruct (add_rows_columns xs d) as (E1 & E2 & E3 & E4 & E5 & E6).
  rewrite E1, E2, E3, E4, E5, E6, !length_app, !length_map. lia.
Qed.

Lemma zip6_snoc bs ts cs ps ws rs x :
  aligned (length bs)
    {| block_n := bs; trial_n := ts; correct_response := cs;
       participant_response := ps; was_correct := ws; rt_list := rs |} ->
  zip6 (bs ++ [block x]) (ts ++ [trial x]) (cs ++ [n_objects_actual x])
       (ps ++ [n_objects_guessed x]) (ws ++ [correct x]) (rs ++ [rt x])
  = zip6 bs ts cs ps ws rs ++ [x].
Proof.
  unfold aligned; simpl. revert ts cs ps ws rs.
  induction bs as [|b bs IH]; intros ts cs ps ws rs (_ & H2 & H3 & H4 & H5 & H6);
    destruct ts, cs, ps, ws, rs; simpl in *; try discriminate.
  - now destruct x.
  - rewrite IH; auto. repeat split; congruence.
Qed.

(** The table built from the lists holds the rows that were added. *)
Lemma results_add_rows xs : results (add_rows empty_data xs) = xs.
Proof.
  assert (H : forall ys d n, aligned n d ->
                results (add_rows d ys) = results d ++ ys).
  { induction ys as [|y ys IH]; intros d n Hd; simpl.
    - now rewrite app_nil_r.
    - rewrite (IH _ (n + 1)%nat).
      + unfold results at 1, add_row. cbn [block_n trial_n correct_response
          participant_response was_correct rt_list].
        rewrite zip6_snoc.
        * unfold results. now rewrite <- app_assoc.
        * destruct d; unfold aligned in *; simpl in *. intuition congruence.
      + apply (aligned_add_rows n d [y]). exact Hd. }
  rewrite (H xs empty_data O); [reflexivity|].
  unfold aligned; simpl; auto 10.
Qed.

(** ** Shuffling and blocks *)

Section Blocks.

Variable env : Env.
Variable fuel : nat.

Lemma swap_Permutation x i j x' : swap x i j = Some x' -> x' ≡ₚ x.
Proof.
  unfold swap. destruct (x !! j) as [xj|] eqn:Hj; [|discriminate].
  destruct (x !! i) as [xi|] eqn:Hi; [|discriminate].
  intros [= <-]. now apply Permutation_insert_swap.
Qed.

Lemma shuffle_from_Done k : forall x s x' s',
  shuffle_from env k x s = Done x' s' -> x' ≡ₚ x /\ s' = after_draws s k.
Proof.
  induction k as [|k IH]; intros x s x' s' H.
  - simpl in H. apply ret_Done in H as [<- <-]. split; [reflexivity|].
    now destruct s as [[] ? ?].
  - cbn [shuffle_from] in H. run_inv H.
    apply randbelow_Done in Hstep as [-> ->].
    apply or_raise_Done in Hstep0 as [Hswap <-].
    apply IH in H as [Hperm ->]. split.
    + rewrite Hperm. eapply swap_Permutation; eauto.
    + destruct s as [[r c w a e] cs d]. unfold after_draws, set_world; simpl.
      do 2 f_equal. lia.
Qed.

Lemma shuffle_conditions_Done s s' :
  shuffle_conditions env s = Done tt s' ->
  conditions s' ≡ₚ conditions s /\ data s' = data s /\
  exists draws, world s' = world (after_draws s draws).
Proof.
  unfold shuffle_conditions. intros H. run_inv H.
  unfold get in Hstep. injection Hstep as <- <-.
  apply shuffle_from_Done in Hstep0 as [Hperm ->].
  unfold modify in H. injection H as <-. simpl. eauto.
Qed.

Lemma run_trial_adds_row b i s s' :
  run_trial env fuel b i s = Done tt s' ->
  exists x, data s' = add_row (data s) x /\ row_ok env b x /\ trial x = i /\
            conditions s !! Z.to_nat i = Some (n_objects_actual x) /\
            conditions s' = conditions s.
Proof.
  intros H. apply run_trial_Done in H. cbv zeta in H.
  destruct H as (n & k & r & draws & asked & left & Hn & Hr & Hkeys & Hcs & Hd & _).
  exists {| block := b; trial := i; n_objects_actual := n;
            n_objects_guessed := r; correct := n =? r;
            rt := (clock env (S (clk_pos (world s))) - clock env (clk_pos (world s)))%Q |}.
  split; [exact Hd|]. split; [|auto].
  assert (Hrange : 0 <= r <= 9).
  { destruct Hkeys as [(Hmw & Hk & _)|(_ & Haw & _)].
    - apply must_wait_false in Hmw as (k' & rest & v & Hstim & Hv & Hrange).
      rewrite Hstim in Hk. simpl in Hk. injection Hk as ->. congruence.
    - apply await_Some in Haw as (_ & _ & _ & _ & Hacc & _).
      apply (digit_key_int (unicode env)) in Hacc as (v & Hv & Hrange). congruence. }
  unfold row_ok; cbn. repeat split; eauto; lia.
Qed.

Lemma trials_add_rows b k s0 s' :
  length (conditions s0) = Z.to_nat N_TRIALS ->
  (k <= length (conditions s0))%nat ->
  for_each (range 0 (Z.of_nat k)) (run_trial env fuel b) s0 = Done tt s' ->
  conditions s' = conditions s0 /\
  exists xs, data s' = add_rows (data s0) xs /\ Forall (row_ok env b) xs /\
             map n_objects_actual xs = take k (conditions s0) /\
             map trial xs = range 0 (Z.of_nat k).
Proof.
  intros Hlen Hk Hrun. set (cs := conditions s0) in *.
  assert (Hcs : conditions s0 = cs) by reflexivity. clearbody cs.
  pose (I := fun (j : nat) (st : State) =>
    conditions st = cs /\
    exists xs, data st = add_rows (data s0) xs /\ Forall (row_ok env b) xs /\
               map n_objects_actual xs = take j cs /\
               map trial xs = range 0 (Z.of_nat j)).
  assert (Hbody : forall j i st st',
            range 0 (Z.of_nat k) !! j = Some i -> I j st ->
            run_trial env fuel b i st = Done tt st' -> I (S j) st').
  { intros j i st st' Hj (Hc & xs & Hd & Hok & Hact & Htr) Hbody.
    apply range_lookup_Some in Hj as [-> Hjk].
    apply run_trial_adds_row in Hbody as (x & Hd' & Hx & Hi & Hn & Hc').
    split; [congruence|]. exists (xs ++ [x]).
    rewrite add_rows_app, <- Hd. split; [exact Hd'|].
    split; [apply Forall_app; split; auto|].
    rewrite !map_app, Hact, Htr. simpl. split.
    - rewrite Hc in Hn. replace (Z.to_nat (0 + Z.of_nat j)) with j in Hn by lia.
      now rewrite (take_S_r _ _ _ Hn).
    - rewrite Hi. unfold range.
      replace (Z.to_nat (Z.of_nat (S j) - 0)) with (S j) by lia.
      replace (Z.to_nat (Z.of_nat j - 0)) with j by lia.
      rewrite seq_S, map_app. reflexivity. }
  assert (H0 : I O s0).
  { split; [exact Hcs|]. exists []. repeat split; auto. }
  pose proof (for_each_invariant I _ _ Hbody s0 s' H0 Hrun) as HI.
  rewrite range_length in HI.
  replace (Z.to_nat (Z.of_nat k - 0)) with k in HI by lia. exact HI.
Qed.

Lemma run_block_Done b s s' :
  length (conditions s) = Z.to_nat N_TRIALS ->
  run_block env fuel b s = Done tt s' ->
  conditions s' ≡ₚ conditions s /\
  exists xs, data s' = add_rows (data s) xs /\ block_ok env b (conditions s') xs.
Proof.
  intros Hlen H. unfold run_block in H. run_inv H.
  unfold core_wait in Hstep. injection Hstep as _ <-. destruct v0.
  apply shuffle_conditions_Done in Hstep0 as (Hperm & Hd & _).
  simpl in Hperm, Hd.
  assert (Hlen' : length (conditions s1) = Z.to_nat N_TRIALS)
    by (now rewrite Hperm).
  replace N_TRIALS with (Z.of_nat (length (conditions s1))) in H
    by (rewrite Hlen'; reflexivity).
  apply trials_add_rows in H as (Hc & xs & Hd' & Hok & Hact & Htr); auto.
  rewrite Hc. split; [exact Hperm|]. exists xs. rewrite <- Hd.
  split; [exact Hd'|]. unfold block_ok. split; [exact Hok|].
  rewrite firstn_all in Hact. rewrite Hlen' in Htr. auto.
Qed.

End Blocks.

(** ** The run, trial by trial *)

Section Run.

Variable env : Env.
Variable fuel : nat.

Lemma initial_conditions_length :
  length initial_conditions = Z.to_nat N_TRIALS.
Proof. reflexivity. Qed.

Lemma blocks_add_rows (nb : nat) s s' :
  conditions s ≡ₚ initial_conditions ->
  for_each (range 1 (1 + Z.of_nat nb)) (run_block env fuel) s = Done tt s' ->
  conditions s' ≡ₚ initial_conditions /\
  exists blocks, length blocks = nb /\ blocks_ok env blocks /\
                 data s' = add_rows (data s) (concat blocks).
Proof.
  intros Hperm Hrun.
  pose (J := fun (j : nat) (st : State) =>
    conditions st ≡ₚ initial_conditions /\
    exists blocks, length blocks = j /\ blocks_ok env blocks /\
                   data st = add_rows (data s) (concat blocks)).
  assert (Hbody : forall j b st st',
            range 1 (1 + Z.of_nat nb) !! j = Some b -> J j st ->
            run_block env fuel b st = Done tt st' -> J (S j) st').
  { intros j b st st' Hj (Hc & blocks & Hlen & Hok & Hd) Hbody.
    apply range_lookup_Some in Hj as [-> _].
    apply run_block_Done in Hbody as (Hc' & xs & Hd' & Hxs).
    2:{ rewrite Hc. apply initial_conditions_length. }
    split; [now rewrite Hc'|]. exists (blocks ++ [xs]).
    rewrite length_app, concat_app, add_rows_app, <- Hd. simpl.
    rewrite app_nil_r. repeat split; auto; [lia|].
    intros i ys Hi. apply lookup_snoc_Some in Hi as [[_ Hi]|[-> <-]].
    - eapply Hok; eauto.
    - exists (conditions st'). rewrite Hlen. split; [now rewrite Hc'|exact Hxs]. }
  assert (H0 : J O s).
  { split; [exact Hperm|]. exists []. repeat split; auto.
    intros j xs Hj. rewrite lookup_nil in Hj. discriminate. }
  pose proof (for_each_invariant J _ _ Hbody s s' H0 Hrun) as HJ.
  rewrite range_length in HJ.
  replace (Z.to_nat (1 + Z.of_nat nb - 1)) with nb in HJ by lia. exact HJ.
Qed.

Lemma waitKeys_Done keyList s ks s' :
  waitKeys env keyList s = Done ks s' ->
  conditions s' = conditions s /\ data s' = data s.
Proof.
  unfold waitKeys. destruct (await _ _ _) as [[k rest]|]; [|discriminate].
  intros [= <- <-]. auto.
Qed.

(** Where the script stands after [k] trials of block [nb + 1]. *)
Lemma upto_Done (nb k : nat) s :
  (k <= Z.to_nat N_TRIALS)%nat ->
  upto env fuel nb k initial_state = Done tt s ->
  exists blocks cur,
    length blocks = nb /\ blocks_ok env blocks /\
    conditions s ≡ₚ initial_conditions /\
    Forall (row_ok env (1 + Z.of_nat nb)) cur /\
    map n_objects_actual cur = take k (conditions s) /\
    map trial cur = range 0 (Z.of_nat k) /\
    data s = add_rows empty_data (concat blocks ++ cur).
Proof.
  intros Hk H. unfold upto in H. run_inv H. destruct v0, v1, v2.
  apply waitKeys_Done in Hstep as [Hc0 Hd0].
  apply blocks_add_rows in Hstep0 as (Hc1 & blocks & Hlen & Hok & Hd1).
  2:{ now rewrite Hc0. }
  unfold core_wait in Hstep1. injection Hstep1 as <-.
  apply shuffle_conditions_Done in Hstep2 as (Hc2 & Hd2 & _).
  simpl in Hc2, Hd2.
  assert (Hc3 : conditions s3 ≡ₚ initial_conditions) by (now rewrite Hc2).
  apply trials_add_rows in H as (Hc & cur & Hd & Hcur & Hact & Htr).
  - exists blocks, cur. rewrite Hc. repeat split; auto.
    rewrite Hd, Hd2, Hd1, Hd0, add_rows_app. reflexivity.
  - rewrite Hc3. apply initial_conditions_length.
  - rewrite Hc3, initial_conditions_length. exact Hk.
Qed.

End Run.

Section RunFacts.

Variable env : Env.
Variable fuel : nat.

(** The whole script is its prefix of two blocks and ten trials, followed by
    the wait for the closing key. *)
Lemma experiment_upto s :
  experiment env fuel s =
  (upto env fuel 2 10 ;;; waitKeys env None ;;; ret tt) s.
Proof.
  unfold experiment, upto, block_sequence.
  change (range 1 (N_BLOCKS + 1)) with [1; 2; 3].
  change (range 1 (1 + Z.of_nat 2)) with [1; 2].
  change (1 + Z.of_nat 2) with 3. change (Z.of_nat 10) with N_TRIALS.
  cbn [for_each].
  set (B1 := run_block env fuel 1). set (B2 := run_block env fuel 2).
  unfold run_block, bind, ret.
  destruct (waitKeys env None s) as [? s1| | |]; try reflexivity.
  destruct (B1 s1) as [? s2| | |]; try reflexivity.
  destruct (B2 s2) as [? s3| | |]; try reflexivity.
  destruct (core_wait env BLOCK_START_DURATION s3) as [? s4| | |];
    try reflexivity.
  destruct (shuffle_conditions env s4) as [? s5| | |]; try reflexivity.
  destruct (for_each (range 0 N_TRIALS) (run_trial env fuel 3) s5)
    as [? s6| | |]; reflexivity.
Qed.

Lemma run_upto s :
  run env fuel = Done tt s ->
  exists s', upto env fuel 2 10 initial_state = Done tt s' /\ data s = data s'.
Proof.
  unfold run. rewrite experiment_upto. intros H. run_inv H. destruct v.
  exists s0. split; [exact Hstep|].
  apply waitKeys_Done in Hstep0 as [_ Hd]. apply ret_Done in H as [_ <-].
  exact Hd.
Qed.

Lemma block_ok_length b cs xs :
  block_ok env b cs xs -> length xs = Z.to_nat N_TRIALS.
Proof.
  intros (_ & _ & Htr). rewrite <- (length_map trial), Htr, range_length.
  reflexivity.
Qed.

Lemma blocks_ok_concat blocks :
  blocks_ok env blocks ->
  length (concat blocks) = (Z.to_nat N_TRIALS * length blocks)%nat /\
  Forall (fun x => exists b, row_ok env b x) (concat blocks).
Proof.
  induction blocks as [|xs blocks IH] using rev_ind; intros Hok.
  - simpl. split; [lia|constructor].
  - destruct IH as [IHlen IHrows].
    { intros j ys Hj. apply (Hok j ys). now apply lookup_app_l_Some. }
    destruct (Hok (length blocks) xs) as (cs & _ & Hxs).
    { rewrite lookup_app_r, Nat.sub_diag by lia. reflexivity. }
    rewrite concat_app, !length_app. simpl. rewrite app_nil_r. split.
    + rewrite IHlen, (block_ok_length _ _ _ Hxs).
      change (Z.to_nat N_TRIALS) with 10%nat. lia.
    + apply Forall_app. split; [exact IHrows|].
      destruct Hxs as (Hrows & _). eapply Forall_impl; [exact Hrows|]. eauto.
Qed.

(** After [k] trials of block [nb + 1] the lists hold [10 * nb + k] rows,
    each of them added by a trial. *)
Lemma upto_rows (nb k : nat) s :
  (k <= Z.to_nat N_TRIALS)%nat ->
  upto env fuel nb k initial_state = Done tt s ->
  exists rows,
    data s = add_rows empty_data rows /\
    length rows = (Z.to_nat N_TRIALS * nb + k)%nat /\
    Forall (fun x => exists b, row_ok env b x) rows.
Proof.
  intros Hk H.
  apply upto_Done in H as (blocks & cur & Hlen & Hok & Hc & Hcur & Hact & Htr & Hd);
    [|exact Hk].
  destruct (blocks_ok_concat blocks Hok) as [Hclen Hcrows].
  exists (concat blocks ++ cur). split; [exact Hd|]. split.
  - rewrite length_app, Hclen, Hlen. f_equal.
    rewrite <- (length_map trial), Htr, range_length. lia.
  - apply Forall_app. split; [exact Hcrows|].
    eapply Forall_impl; [exact Hcur|]. eauto.
Qed.

Lemma upto_aligned (nb k : nat) s :
  (k <= Z.to_nat N_TRIALS)%nat ->
  upto env fuel nb k initial_state = Done tt s ->
  aligned (Z.to_nat N_TRIALS * nb + k) (data s).
Proof.
  intros Hk H. apply upto_rows in H as (rows & Hd & Hlen & _); [|exact Hk].
  rewrite Hd, <- Hlen.
  apply (aligned_add_rows O empty_data rows). unfold aligned; simpl; auto 10.
Qed.

End RunFacts.

Lemma sample_env_monotone : monotone sample_env.
Proof.
  intros i. unfold sample_env, clock, Qle. cbn [Qnum Qden]. lia.
Qed.

(** ** The results lists *)

(** C10.  A trial that finishes appends one element to each of the six
    lists; and at the end of the [k]-th trial of block [nb + 1], the six
    lists all have the length [N_TRIALS * nb + k], the number of trials
    finished since the start of the script. *)
Theorem lists_stay_aligned env fuel :
  (forall b i s s',
     run_trial env fuel b i s = Done tt s' ->
     exists x, data s' = add_row (data s) x /\
               forall n, aligned n (data s) -> aligned (S n) (data s')) /\
  (forall (nb k : nat) s,
     Z.of_nat nb < N_BLOCKS -> Z.of_nat k <= N_TRIALS ->
     upto env fuel nb k initial_state = Done tt s ->
     aligned (Z.to_nat N_TRIALS * nb + k) (data s)).
Proof.
  split.
  - intros b i s s' H.
    apply run_trial_adds_row in H as (x & Hd & _). exists x. split; [exact Hd|].
    intros n Hn. rewrite Hd. replace (S n) with (n + length [x])%nat by (simpl; lia).
    apply (aligned_add_rows n (data s) [x] Hn).
  - intros nb k s _ Hk H. apply (upto_aligned env fuel); [|exact H].
    change (Z.to_nat N_TRIALS) with 10%nat. unfold N_TRIALS in Hk. lia.
Qed.

Lemma lists_stay_aligned_witness :
  exists s, upto sample_env 40 1 4 initial_state = Done tt s /\
            aligned 14 (data s).
Proof.
  eexists. split; [vm_compute; reflexivity|].
  apply (proj2 (lists_stay_aligned sample_env 40) 1%nat 4%nat).
  - reflexivity.
  - unfold N_TRIALS. lia.
  - vm_compute. reflexivity.
Defined.

(** C9.  At the end of every trial, every stored response
    ([participant_response], the column n_objects_guessed) is an integer
    from 0 to 9; 10 is not among them. *)
Theorem responses_are_digits env fuel (nb k : nat) s :
  Z.of_nat nb < N_BLOCKS -> Z.of_nat k <= N_TRIALS ->
  upto env fuel nb k initial_state = Done tt s ->
  Forall (fun r => 0 <= r <= 9) (participant_response (data s)) /\
  ~ In 10 (participant_response (data s)).
Proof.
  intros _ Hk H.
  apply upto_rows in H as (rows & Hd & _ & Hrows).
  2:{ change (Z.to_nat N_TRIALS) with 10%nat. unfold N_TRIALS in Hk. lia. }
  assert (Hall : Forall (fun r => 0 <= r <= 9) (participant_response (data s))).
  { destruct (add_rows_columns rows empty_data) as (_ & _ & _ & E & _).
    rewrite Hd, E. simpl. apply Forall_fmap.
    eapply Forall_impl; [exact Hrows|]. intros x (b & _ & Hx & _). exact Hx. }
  split; [exact Hall|].
  intros Hin. rewrite List.Forall_forall in Hall. apply Hall in Hin. lia.
Qed.

Lemma responses_are_digits_witness :
  exists s, upto sample_env 40 2 10 initial_state = Done tt s /\
            Forall (fun r => 0 <= r <= 9) (participant_response (data s)) /\
            ~ In 10 (participant_response (data s)).
Proof.
  eexists. split; [vm_compute; reflexivity|].
  apply (responses_are_digits sample_env 40 2%nat 10%nat).
  - reflexivity.
  - unfold N_TRIALS. lia.
  - vm_compute. reflexivity.
Defined.

(** C8.  With a clock whose readings never decrease, every stored response
    time (the reading after the response less the reading when the prompt
    was shown) is at least zero. *)
Theorem response_times_nonnegative env fuel (nb k : nat) s :
  monotone env ->
  Z.of_nat nb < N_BLOCKS -> Z.of_nat k <= N_TRIALS ->
  upto env fuel nb k initial_state = Done tt s ->
  Forall (fun t => (0 <= t)%Q) (rt_list (data s)).
Proof.
  intros Hmono _ Hk H.
  apply upto_rows in H as (rows & Hd & _ & Hrows).
  2:{ change (Z.to_nat N_TRIALS) with 10%nat. unfold N_TRIALS in Hk. lia. }
  destruct (add_rows_columns rows empty_data) as (_ & _ & _ & _ & _ & E).
  rewrite Hd, E. simpl. apply Forall_fmap.
  eapply Forall_impl; [exact Hrows|]. intros x (b & _ & _ & _ & c & Hrt).
  simpl. rewrite Hrt. specialize (Hmono c).
  apply (Qplus_le_l _ _ (clock env c)). ring_simplify. exact Hmono.
Qed.

Lemma response_times_nonnegative_witness :
  exists s, upto sample_env 40 2 10 initial_state = Done tt s /\
            Forall (fun t => (0 <= t)%Q) (rt_list (data s)).
Proof.
  eexists. split; [vm_compute; reflexivity|].
  apply (response_times_nonnegative sample_env 40 2%nat 10%nat).
  - exact sample_env_monotone.
  - reflexivity.
  - unfold N_TRIALS. lia.
  - vm_compute. reflexivity.
Defined.

(** ** The conditions of a block *)

Lemma initial_conditions_value :
  initial_conditions = [1; 2; 3; 4; 5; 6; 7; 8; 9; 10].
Proof. reflexivity. Qed.

Lemma initial_conditions_NoDup : NoDup initial_conditions.
Proof. apply (bool_decide_unpack _). vm_compute. exact I. Qed.

Lemma range_snoc lo (n : nat) :
  range lo (lo + Z.of_nat (S n)) = range lo (lo + Z.of_nat n) ++ [lo + Z.of_nat n].
Proof.
  unfold range.
  replace (Z.to_nat (lo + Z.of_nat (S n) - lo)) with (S n) by lia.
  replace (Z.to_nat (lo + Z.of_nat n - lo)) with n by lia.
  now rewrite seq_S, map_app.
Qed.

Lemma map_block_replicate b xs :
  Forall (fun x => block x = b) xs -> map block xs = replicate (length xs) b.
Proof. induction 1 as [|x xs Hx _ IH]; simpl; congruence. Qed.

Lemma blocks_tags env (blocks : list (list Row)) :
  blocks_ok env blocks ->
  map block (concat blocks) =
  concat (map (fun b => replicate (Z.to_nat N_TRIALS) b)
              (range 1 (1 + Z.of_nat (length blocks)))).
Proof.
  induction blocks as [|xs blocks IH] using rev_ind; intros Hok; [reflexivity|].
  rewrite length_app. simpl length.
  replace (length blocks + 1)%nat with (S (length blocks)) by lia.
  rewrite range_snoc, !map_app, !concat_app, map_app. cbn [map concat].
  rewrite !app_nil_r. f_equal.
  - apply IH. intros j ys Hj. apply (Hok j ys). now apply lookup_app_l_Some.
  - destruct (Hok (length blocks) xs) as (cs & _ & Hxs).
    { rewrite lookup_app_r, Nat.sub_diag by lia. reflexivity. }
    rewrite <- (block_ok_length env _ _ _ Hxs). apply map_block_replicate.
    destruct Hxs as (Hrows & _). eapply Forall_impl; [exact Hrows|].
    intros x Hx. apply Hx.
Qed.

(** C3.  When block [nb + 1] is over (its ten trials done), the list
    [correct_response] is made of [nb + 1] runs of [N_TRIALS] values, one run
    for each block so far; every run is a rearrangement of 1, ..., N_TRIALS
    without repetition; and [block_n] tags the rows of the first run with 1,
    those of the second with 2, and so on. *)
Theorem blocks_cover_conditions env fuel (nb : nat) s :
  Z.of_nat nb < N_BLOCKS ->
  upto env fuel nb (Z.to_nat N_TRIALS) initial_state = Done tt s ->
  exists conds : list (list Z),
    length conds = S nb /\
    correct_response (data s) = concat conds /\
    Forall (fun cs => cs ≡ₚ [1; 2; 3; 4; 5; 6; 7; 8; 9; 10] /\ NoDup cs /\
                      length cs = Z.to_nat N_TRIALS) conds /\
    block_n (data s) =
      concat (map (fun b => replicate (Z.to_nat N_TRIALS) b)
                  (range 1 (1 + Z.of_nat (S nb)))) /\
    aligned (Z.to_nat N_TRIALS * S nb) (data s).
Proof.
  intros _ H.
  pose proof (upto_aligned env fuel nb _ s (Nat.le_refl _) H) as Hal.
  apply upto_Done in H as Hup; [|lia].
  destruct Hup as (blocks & cur & Hlen & Hok & Hc & Hcur & Hact & Htr & Hd).
  assert (Hcl : length (conditions s) = Z.to_nat N_TRIALS)
    by (now rewrite Hc).
  rewrite <- Hcl, firstn_all in Hact.
  assert (Hall : blocks_ok env (blocks ++ [cur])).
  { intros j xs Hj. apply lookup_snoc_Some in Hj as [[_ Hj]|[-> <-]].
    - now apply Hok.
    - exists (conditions s). split; [exact Hc|]. rewrite Hlen.
      unfold block_ok. auto. }
  assert (Hrows : concat blocks ++ cur = concat (blocks ++ [cur])).
  { rewrite concat_app. simpl. now rewrite app_nil_r. }
  destruct (add_rows_columns (concat (blocks ++ [cur])) empty_data)
    as (Eb & _ & Ec & _).
  rewrite Hrows in Hd. rewrite <- Hd in Eb, Ec. simpl in Eb, Ec.
  exists (map (map n_objects_actual) (blocks ++ [cur])).
  split; [rewrite length_map, length_app; simpl; lia|].
  split; [now rewrite Ec, concat_map|].
  split.
  - apply Forall_fmap, Forall_lookup. intros j xs Hj. simpl.
    destruct (Hall j xs Hj) as (cs & Hcs & Hxs).
    assert (Hx : map n_objects_actual xs = cs) by apply Hxs.
    rewrite <- initial_conditions_value, Hx. split; [exact Hcs|]. split.
    + rewrite Hcs. apply initial_conditions_NoDup.
    + rewrite Hcs. reflexivity.
  - split.
    + rewrite Eb, (blocks_tags env _ Hall), length_app, Hlen. simpl length.
      replace (nb + 1)%nat with (S nb) by lia. reflexivity.
    + replace (Z.to_nat N_TRIALS * S nb)%nat
        with (Z.to_nat N_TRIALS * nb + Z.to_nat N_TRIALS)%nat
        by (change (Z.to_nat N_TRIALS) with 10%nat; lia).
      exact Hal.
Qed.

Lemma blocks_cover_conditions_witness :
  exists s conds,
    upto sample_env 40 2 (Z.to_nat N_TRIALS) initial_state = Done tt s /\
    length conds = 3%nat /\
    correct_response (data s) = concat conds /\
    Forall (fun cs => cs ≡ₚ [1; 2; 3; 4; 5; 6; 7; 8; 9; 10] /\ NoDup cs /\
                      length cs = Z.to_nat N_TRIALS) conds /\
    block_n (data s) =
      concat (map (fun b => replicate (Z.to_nat N_TRIALS) b)
                  (range 1 (1 + Z.of_nat 3))) /\
    aligned (Z.to_nat N_TRIALS * 3) (data s).
Proof.
  eexists.
  assert (H : upto sample_env 40 2 (Z.to_nat N_TRIALS) initial_state
              = Done tt _) by (vm_compute; reflexivity).
  destruct (blocks_cover_conditions sample_env 40 2%nat _ eq_refl H)
    as (conds & Hc).
  exists conds. split; [exact H|exact Hc].
Defined.

(** ** The response *)

Lemma int_isnumeric u k v : int u k = Some v -> isnumeric u k = true.
Proof. unfold int. destruct (isnumeric u k); [reflexivity|discriminate]. Qed.

(** The test of line 238 lets the first key of the buffer through when it
    is a valid digit, ... *)
Lemma must_wait_spec env keys :
  must_wait env keys = Some false <->
  exists k, head keys = Some k /\ valid_digit env k.
Proof.
  split.
  - intros H. apply must_wait_false in H as (k & rest & v & -> & Hv & Hr).
    exists k. split; [reflexivity|]. now exists v.
  - intros (k & Hk & v & Hv & Hr). destruct keys as [|k' rest]; [discriminate|].
    injection Hk as ->. simpl. rewrite (int_isnumeric _ _ _ Hv), Hv. simpl.
    f_equal. apply negb_false_iff, andb_true_iff. split; apply Z.leb_le; lia.
Qed.

(** ... and raises when the first key is numeric and [int] does not
    convert it. *)
Lemma must_wait_raises env keys :
  must_wait env keys = None <->
  exists k, head keys = Some k /\ unreadable env k.
Proof.
  unfold unreadable. destruct keys as [|k rest]; simpl.
  - split; [discriminate|]. intros (k & Hk & _). discriminate.
  - destruct (isnumeric (unicode env) k) eqn:Hnum; simpl.
    + destruct (int (unicode env) k) as [v|] eqn:Hint.
      * split; [discriminate|]. intros (k' & [= <-] & _ & H). congruence.
      * split; [|reflexivity]. intros _. exists k. auto.
    + split; [discriminate|]. intros (k' & [= <-] & H & _). congruence.
Qed.

Section Prompt.

Variable env : Env.
Variable fuel : nat.

Lemma find_position_outcome n : forall ps s,
  (exists p s', find_position env n ps s = Done p s') \/
  find_position env n ps s = Timeout.
Proof.
  induction n as [|n IH]; intros ps s; [now right|].
  rewrite find_position_unfold. cbv zeta.
  destruct (check_valid _ _ ps); [left; eauto|apply IH].
Qed.

Lemma place_circles_outcome k : forall acc s,
  (exists ps s', place_circles env fuel k acc s = Done ps s') \/
  place_circles env fuel k acc s = Timeout.
Proof.
  induction k as [|k IH]; intros acc s; [left; simpl; unfold ret; eauto|].
  cbn [place_circles]. unfold bind.
  destruct (find_position_outcome fuel acc s) as [(p & s1 & ->)| ->];
    [apply IH|now right].
Qed.

(** A trial whose prompt has to wait and gets no digit never ends. *)
Lemma run_trial_stuck b i s :
  must_wait env (typed env (S (wait_pos (world s)))) = Some true ->
  await (Some digit_keys) (pressed env (ask_pos (world s))) [] = None ->
  run_trial env fuel b i s = Hang \/
  run_trial env fuel b i s = Timeout \/
  conditions s !! Z.to_nat i = None.
Proof.
  intros Hmw Haw. destruct s as [[r0 c0 w0 a0 e0] cs d].
  cbn [world wait_pos ask_pos conditions] in *.
  remember (run_trial env fuel b i _) as R eqn:HR.
  unfold run_trial in HR. unfold bind at 1 in HR. unfold get at 1 in HR.
  unfold bind at 1 in HR. cbn [conditions] in HR.
  destruct (cs !! Z.to_nat i) as [n|]; [|now right; right].
  cbn [or_raise] in HR. unfold ret at 1 in HR. unfold bind at 1 in HR.
  unfold core_wait at 1 in HR.
  cbn [world set_world events wait_pos after_wait] in HR.
  unfold bind at 1 in HR.
  match type of HR with
  | context [place env fuel n ?s2] =>
      destruct (place_circles_outcome (Z.to_nat n) [] s2) as [(ps & s3 & Hp)|Hp];
      unfold place at 1 in HR; rewrite Hp in HR; [|now right; left]
  end.
  apply (place_Done env fuel) in Hp as [m ->]. left.
  unfold bind, clearEvents, modify, core_wait, getTime in HR.
  cbn -[ask] in HR. rewrite ask_result in HR.
  cbn -[must_wait await digit_keys] in HR. rewrite Hmw, Haw in HR. exact HR.
Qed.

(** A trial whose prompt finds an unreadable key ends in the exception. *)
Lemma run_trial_raises b i s :
  must_wait env (typed env (S (wait_pos (world s)))) = None ->
  run_trial env fuel b i s = Raise \/ run_trial env fuel b i s = Timeout.
Proof.
  intros Hmw. destruct s as [[r0 c0 w0 a0 e0] cs d].
  cbn [world wait_pos ask_pos conditions] in *.
  remember (run_trial env fuel b i _) as R eqn:HR.
  unfold run_trial in HR. unfold bind at 1 in HR. unfold get at 1 in HR.
  unfold bind at 1 in HR. cbn [conditions] in HR.
  destruct (cs !! Z.to_nat i) as [n|]; [|now left].
  cbn [or_raise] in HR. unfold ret at 1 in HR. unfold bind at 1 in HR.
  unfold core_wait at 1 in HR.
  cbn [world set_world events wait_pos after_wait] in HR.
  unfold bind at 1 in HR.
  match type of HR with
  | context [place env fuel n ?s2] =>
      destruct (place_circles_outcome (Z.to_nat n) [] s2) as [(ps & s3 & Hp)|Hp];
      unfold place at 1 in HR; rewrite Hp in HR; [|now right]
  end.
  apply (place_Done env fuel) in Hp as [m ->]. left.
  unfold bind, clearEvents, modify, core_wait, getTime in HR.
  cbn -[ask] in HR. rewrite ask_result in HR.
  cbn -[must_wait await digit_keys] in HR. rewrite Hmw in HR. exact HR.
Qed.

End Prompt.

(** The placement neither reads nor changes the event buffer, and of the
    environment it only reads the generator. *)
Lemma find_position_events env env' n ps ev : forall s,
  (forall i, entropy env' i = entropy env i) ->
  find_position env' n ps (with_events s ev) =
  match find_position env n ps s with
  | Done p s' => Done p (with_events s' ev)
  | Hang => Hang
  | Raise => Raise
  | Timeout => Timeout
  end.
Proof.
  intros s Hent. revert s. induction n as [|n IH]; intros s; [reflexivity|].
  rewrite !find_position_unfold. cbv zeta.
  assert (Hc : candidate env' (rng_pos (world (with_events s ev)))
               = candidate env (rng_pos (world s))).
  { unfold candidate. now rewrite !Hent. }
  rewrite Hc.
  assert (Hs : after_draws (with_events s ev) 2 = with_events (after_draws s 2) ev)
    by (now destruct s as [[] ? ?]).
  rewrite Hs. destruct (check_valid _ _ ps); [reflexivity|apply IH].
Qed.

Lemma place_circles_events env env' fuel k ev : forall acc s,
  (forall i, entropy env' i = entropy env i) ->
  place_circles env' fuel k acc (with_events s ev) =
  match place_circles env fuel k acc s with
  | Done ps s' => Done ps (with_events s' ev)
  | Hang => Hang
  | Raise => Raise
  | Timeout => Timeout
  end.
Proof.
  intros acc s Hent. revert acc s.
  induction k as [|k IH]; intros acc s; [reflexivity|].
  cbn [place_circles]. unfold bind.
  rewrite (find_position_events env env') by exact Hent.
  destruct (find_position env fuel acc s) as [p s1| | |]; try reflexivity.
  apply IH.
Qed.

(** Neither the buffer at the start of a trial nor the keys typed during its
    fixation change anything in what the trial does. *)
Lemma run_trial_ignores_fixation env fuel b i s ks ev :
  run_trial (retyped env (wait_pos (world s)) ks) fuel b i (with_events s ev)
  = run_trial env fuel b i s.
Proof.
  destruct s as [[r0 c0 w0 a0 e0] cs d].
  unfold with_events, set_world, set_events.
  cbn [world wait_pos rng_pos clk_pos ask_pos events conditions data].
  set (env' := retyped env w0 ks).
  assert (Ht0 : typed env' w0 = ks).
  { unfold env', retyped; cbn [typed]. now rewrite Nat.eqb_refl. }
  assert (Ht1 : typed env' (S w0) = typed env (S w0)).
  { unfold env', retyped; cbn [typed].
    destruct (Nat.eqb_spec (S w0) w0); [lia|reflexivity]. }
  assert (Hent : forall j, entropy env' j = entropy env j) by reflexivity.
  assert (Hclock : clock env' = clock env) by reflexivity.
  assert (Hpressed : pressed env' = pressed env) by reflexivity.
  assert (Hunicode : unicode env' = unicode env) by reflexivity.
  assert (Hmw : forall keys, must_wait env' keys = must_wait env keys)
    by reflexivity.
  clearbody env'.
  set (sR := {| world := {| rng_pos := r0; clk_pos := c0; wait_pos := S w0;
                            ask_pos := a0; events := e0 ++ typed env w0 |};
                conditions := cs; data := d |}).
  remember (run_trial env' fuel b i _) as L eqn:HL.
  remember (run_trial env fuel b i _) as R eqn:HR.
  unfold run_trial in HL, HR.
  unfold bind at 1 in HL. unfold get at 1 in HL. unfold bind at 1 in HL.
  unfold bind at 1 in HR. unfold get at 1 in HR. unfold bind at 1 in HR.
  cbn [conditions] in HL, HR.
  destruct (cs !! Z.to_nat i) as [n|]; [|subst; reflexivity].
  cbn [or_raise] in HL, HR. unfold ret at 1 in HL. unfold ret at 1 in HR.
  unfold bind at 1 in HL. unfold bind at 1 in HR.
  unfold core_wait at 1 in HL. unfold core_wait at 1 in HR.
  unfold set_world at 1, after_wait at 1 in HL.
  unfold set_world at 1, after_wait at 1 in HR.
  cbn [world events wait_pos rng_pos clk_pos ask_pos conditions data]
    in HL, HR.
  rewrite Ht0 in HL. fold sR in HR.
  change {| world := {| rng_pos := r0; clk_pos := c0; wait_pos := S w0;
                        ask_pos := a0; events := ev ++ ks |};
            conditions := cs; data := d |}
    with (with_events sR (ev ++ ks)) in HL.
  unfold bind at 1 in HL. unfold bind at 1 in HR.
  unfold place at 1 in HL. unfold place at 1 in HR.
  rewrite (place_circles_events env env') in HL by exact Hent.
  destruct (place_circles env fuel (Z.to_nat n) [] sR) as [ps s3| | |] eqn:Hp;
    try (subst; reflexivity).
  apply place_circles_Done in Hp as (_ & _ & _ & m & ->);
    [|constructor|apply pairwise_apart_nil].
  unfold bind, clearEvents, modify, core_wait, getTime in HL, HR.
  cbn -[ask typed clock pressed] in HL, HR. rewrite Ht1 in HL.
  rewrite !ask_result in HL, HR.
  cbn -[typed clock pressed unicode must_wait await digit_keys int] in HL, HR.
  rewrite Hclock, Hpressed, Hunicode, Hmw in HL. subst L R. reflexivity.
Qed.

(** C4 at work.  The participant types a superscript two while the circles
    are shown.  The key is no digit key, yet [isnumeric] accepts it and
    [int] does not convert it: the test of line 238 raises, and the trial
    ends in the exception instead of waiting for the "5" that is pressed
    afterwards. *)
Theorem superscript_key_raises :
  typed superscript_env 1 = [[178%N]] /\
  pressed superscript_env 0 = [name "5"] /\
  key_in [178%N] digit_keys = false /\
  isnumeric (unicode superscript_env) [178%N] = true /\
  int (unicode superscript_env) [178%N] = None /\
  run_trial superscript_env 40 1 0 initial_state = Raise.
Proof. repeat split; vm_compute; reflexivity. Qed.

(** ** The key "0" and ten circles *)

(** No row with ten circles is marked correct, whatever was answered. *)
Lemma ten_circles_never_correct env b x :
  row_ok env b x -> n_objects_actual x = 10 -> correct x = false.
Proof.
  intros (_ & Hr & Hc & _) Hn. rewrite Hc, Hn. apply Z.eqb_neq. lia.
Qed.

(** C1 at work.  The tenth trial of a block in its initial order shows ten
    circles; the participant answers "0" ("0 means 10" on the screen).  The
    lists get the response 0, not 10, and the trial is marked as wrong. *)
Theorem zero_key_for_ten_circles :
  exists s,
    run_trial zero_env 40 1 9 initial_state = Done tt s /\
    correct_response (data s) = [10] /\
    participant_response (data s) = [0] /\
    was_correct (data s) = [false].
Proof.
  eexists. split; [vm_compute; reflexivity|]. repeat split.
Qed.

(** ** The summary *)

Lemma total_snoc xs v : total (xs ++ [v]) = (total xs + v)%Q.
Proof. unfold total. now rewrite fold_left_app. Qed.

Lemma add_to_group_keys k v groups x :
  In x (map fst (add_to_group k v groups)) <-> x = k \/ In x (map fst groups).
Proof.
  induction groups as [|[k' [t c]] rest IH]; simpl.
  - intuition.
  - destruct (Z.ltb_spec k k'); simpl; [intuition|].
    destruct (Z.eqb_spec k k'); simpl; [subst; intuition|].
    rewrite IH. intuition.
Qed.

Lemma add_to_group_ascending k v groups :
  ascending groups -> ascending (add_to_group k v groups).
Proof.
  unfold ascending. induction groups as [|[k' [t c]] rest IH]; simpl; intros Hs.
  - repeat constructor.
  - inversion Hs as [|? ? Hrest Hall]; subst.
    destruct (Z.ltb_spec k k'); simpl.
    + constructor; [exact Hs|]. constructor; [exact H|].
      eapply Forall_impl; [exact Hall|]. simpl. intros; lia.
    + destruct (Z.eqb_spec k k'); simpl; [now constructor|].
      constructor; [now apply IH|].
      apply List.Forall_forall. intros x Hx.
      apply add_to_group_keys in Hx as [->|Hx]; [lia|].
      rewrite List.Forall_forall in Hall. now apply Hall.
Qed.

Lemma find_group_None k groups :
  find_group k groups = None <-> ~ In k (map fst groups).
Proof.
  induction groups as [|[k' a] rest IH]; simpl; [tauto|].
  destruct (Z.eqb_spec k k'); [subst; split; [discriminate|tauto]|].
  rewrite IH. intuition.
Qed.

Lemma find_group_In k a groups :
  ascending groups -> In (k, a) groups -> find_group k groups = Some a.
Proof.
  unfold ascending. induction groups as [|[k' a'] rest IH]; simpl;
    intros Hs Hin; [tauto|].
  inversion Hs as [|? ? Hrest Hall]; subst.
  destruct Hin as [[= -> ->]|Hin]; [now rewrite Z.eqb_refl|].
  destruct (Z.eqb_spec k k'); [|now apply IH].
  subst. rewrite List.Forall_forall in Hall.
  specialize (Hall k' (in_map fst _ _ Hin)). simpl in Hall. lia.
Qed.

Lemma find_add_to_group k v groups k' :
  ascending groups ->
  find_group k' (add_to_group k v groups) =
  if k' =? k
  then Some (match find_group k groups with
             | Some (t, c) => ((t + v)%Q, Pos.succ c)
             | None => (v, 1%positive)
             end)
  else find_group k' groups.
Proof.
  unfold ascending. induction groups as [|[k0 [t c]] rest IH]; simpl; intros Hs.
  - destruct (k' =? k); reflexivity.
  - inversion Hs as [|? ? Hrest Hall]; subst.
    destruct (Z.ltb_spec k k0); simpl.
    + destruct (Z.eqb_spec k' k); [subst|reflexivity].
      destruct (Z.eqb_spec k k0); [lia|].
      replace (find_group k rest) with (@None Acc); [reflexivity|].
      symmetry. apply find_group_None. intros Hin.
      rewrite List.Forall_forall in Hall. specialize (Hall k Hin). lia.
    + destruct (Z.eqb_spec k k0); simpl.
      * subst k0. destruct (Z.eqb_spec k' k); reflexivity.
      * rewrite (IH Hrest).
        destruct (Z.eqb_spec k' k0); [|reflexivity].
        subst k0. destruct (Z.eqb_spec k' k); [lia|reflexivity].
Qed.

Section Groups.

Variable key_of : Row -> Z.
Variable col : Row -> Q.

Lemma group_rows_snoc k rows r :
  group_rows key_of k (rows ++ [r]) =
  group_rows key_of k rows ++ (if key_of r =? k then [r] else []).
Proof.
  unfold group_rows. rewrite List.filter_app. simpl.
  destruct (key_of r =? k); reflexivity.
Qed.

Lemma groups_of_step groups rows r :
  groups_of key_of col groups rows ->
  groups_of key_of col (add_to_group (key_of r) (col r) groups) (rows ++ [r]).
Proof.
  intros [Hs Hg]. split; [now apply add_to_group_ascending|].
  intros k. rewrite find_add_to_group by exact Hs.
  rewrite group_rows_snoc. rewrite (Z.eqb_sym (key_of r) k).
  destruct (Z.eqb_spec k (key_of r)) as [->|Hne].
  - specialize (Hg (key_of r)).
    destruct (find_group (key_of r) groups) as [[t c]|].
    + destruct Hg as [Ht Hc]. rewrite map_app. cbn [map].
      rewrite total_snoc, length_app. simpl.
      split; [now rewrite Ht|]. rewrite Pos2Nat.inj_succ. lia.
    + rewrite Hg. simpl. split; [|reflexivity].
      unfold total. simpl. now rewrite Qplus_0_l.
  - specialize (Hg k). rewrite app_nil_r. exact Hg.
Qed.

Lemma groupby_groups_of rows :
  groups_of key_of col (groupby key_of col rows) rows.
Proof.
  unfold groupby.
  assert (H : forall rs groups rows0, groups_of key_of col groups rows0 ->
    groups_of key_of col (fold_left (fun g r => add_to_group (key_of r) (col r) g) rs groups)
              (rows0 ++ rs)).
  { induction rs as [|r rs IH]; intros groups rows0 Hg; simpl.
    - now rewrite app_nil_r.
    - replace (rows0 ++ r :: rs) with ((rows0 ++ [r]) ++ rs)
        by (now rewrite <- app_assoc).
      apply IH. now apply groups_of_step. }
  apply (H rows [] []). split; [constructor|]. intros k. reflexivity.
Qed.

End Groups.

Lemma ascending_NoDup (l : list Z) : StronglySorted Z.lt l -> NoDup l.
Proof.
  induction 1 as [|x l _ IH Hall]; [constructor|].
  apply NoDup_cons. split; [|exact IH].
  intros Hx. rewrite Forall_forall in Hall. apply Hall in Hx. lia.
Qed.

Lemma groupby_mean_keys key_of col rows :
  map fst (groupby_mean key_of col rows) = map fst (groupby key_of col rows).
Proof.
  unfold groupby_mean. rewrite map_map. apply map_ext.
  intros [k [t c]]. reflexivity.
Qed.

(** [groupby(...).agg("mean")] lists every key of the rows once, with the
    plain mean of the column over the rows of that key. *)
Lemma groupby_mean_spec key_of col rows :
  let out := groupby_mean key_of col rows in
  NoDup (map fst out) /\
  (forall k, In k (map fst out) <-> In k (map key_of rows)) /\
  (forall k q, In (k, q) out ->
     (q == mean (map col (group_rows key_of k rows)))%Q).
Proof.
  cbv zeta. rewrite groupby_mean_keys.
  destruct (groupby_groups_of key_of col rows) as [Hs Hg].
  split; [now apply ascending_NoDup|]. split.
  - intros k. specialize (Hg k).
    destruct (find_group k (groupby key_of col rows)) as [[t c]|] eqn:Hf.
    + destruct Hg as [_ Hc]. split; intros _.
      * destruct (group_rows key_of k rows) as [|r g] eqn:Hgr;
          [simpl in Hc; lia|].
        assert (Hr : In r (group_rows key_of k rows)) by (rewrite Hgr; now left).
        apply filter_In in Hr as [Hr Hk]. apply Z.eqb_eq in Hk. subst k.
        now apply in_map.
      * destruct (in_dec Z.eq_dec k (map fst (groupby key_of col rows)))
          as [|Hn]; [assumption|].
        apply find_group_None in Hn. congruence.
    + apply find_group_None in Hf. split; [tauto|]. intros Hin. exfalso.
      apply in_map_iff in Hin as (r & Hk & Hr).
      assert (Hr' : In r (group_rows key_of k rows)).
      { apply filter_In. split; [exact Hr|]. now apply Z.eqb_eq. }
      rewrite Hg in Hr'. destruct Hr'.
  - intros k q Hin. unfold groupby_mean in Hin.
    apply in_map_iff in Hin as ([k' [t c]] & Heq & Hin).
    simpl in Heq. injection Heq as -> <-.
    apply (find_group_In _ _ _ Hs) in Hin. specialize (Hg k).
    rewrite Hin in Hg. destruct Hg as [Ht Hc].
    unfold mean. rewrite length_map, <- Hc, positive_nat_Z, Ht. reflexivity.
Qed.

(** C6.  In the accuracy part of the summary, every block number of the
    table appears once in the per-block list, with the plain mean of
    [correct] (1 for true, 0 for false) over the rows of that block; every
    number of circles of the table appears once in the per-circles list, with
    the plain mean over the rows of that number of circles; and the overall
    accuracy of a table that has rows is the plain mean over all its rows. *)
Theorem accuracy_is_plain_mean (rows : list Row) :
  let a := accuracy rows in
  (NoDup (map fst (per_block a)) /\
   (forall b, In b (map fst (per_block a)) <-> In b (map block rows)) /\
   (forall b q, In (b, q) (per_block a) ->
      (q == mean (map is_correct (group_rows block b rows)))%Q)) /\
  (NoDup (map fst (per_circles a)) /\
   (forall n, In n (map fst (per_circles a)) <->
              In n (map n_objects_actual rows)) /\
   (forall n q, In (n, q) (per_circles a) ->
      (q == mean (map is_correct (group_rows n_objects_actual n rows)))%Q)) /\
  (rows <> [] -> overall a = Num (mean (map is_correct rows))).
Proof.
  cbv zeta. unfold accuracy; cbn [per_block per_circles overall].
  split; [apply groupby_mean_spec|]. split; [apply groupby_mean_spec|].
  intros Hne. destruct rows as [|r rows]; [congruence|].
  unfold column_mean, mean. now rewrite length_map.
Qed.

Lemma accuracy_is_plain_mean_witness :
  [one_row] <> [] /\
  overall (accuracy [one_row]) = Num (mean (map is_correct [one_row])).
Proof.
  split; [discriminate|].
  apply (proj2 (proj2 (accuracy_is_plain_mean [one_row]))). discriminate.
Defined.

(** ** The run comes to its end

    With a fair generator, a participant who answers and no unreadable key
    typed first during a timed wait, some bound on the rejection loop lets
    the whole script finish, and every larger bound gives the same final
    state. *)

Lemma mono_const {A} (m : M A) : mono (fun _ => m).
Proof. intros f f' s a s' _ H. exact H. Qed.

Lemma mono_bind {A B} (m : nat -> M A) (k : nat -> A -> M B) :
  mono m -> (forall a, mono (fun f => k f a)) ->
  mono (fun f => bind (m f) (k f)).
Proof.
  intros Hm Hk f f' s b s2 Hf H. apply bind_Done in H as (a & s1 & H1 & H2).
  apply bind_Done. exists a, s1. split.
  - eapply Hm; eauto.
  - eapply (Hk a); eauto.
Qed.

Lemma mono_for_each {A} (l : list A) (body : nat -> A -> M unit) :
  (forall x, mono (fun f => body f x)) ->
  mono (fun f => for_each l (body f)).
Proof.
  intros Hbody. induction l as [|x l IH]; simpl.
  - apply mono_const.
  - apply (mono_bind (fun f => body f x) (fun f _ => for_each l (body f))).
    + apply Hbody.
    + intros _. exact IH.
Qed.

Lemma mono_place env n : mono (fun f => place env f n).
Proof.
  intros f f' s ps s' Hf H. unfold place in *.
  eapply place_circles_more_fuel; eauto.
Qed.

Lemma mono_run_trial env b i : mono (fun f => run_trial env f b i).
Proof.
  unfold run_trial.
  apply (mono_bind (fun _ => get conditions)); [apply mono_const|]. intros cs.
  apply (mono_bind (fun _ => or_raise (cs !! Z.to_nat i)));
    [apply mono_const|]. intros n.
  apply (mono_bind (fun _ => core_wait env FIX_DURATION));
    [apply mono_const|]. intros _.
  apply (mono_bind (fun f => place env f n)); [apply mono_place|]. intros ps.
  apply mono_const.
Qed.

Lemma mono_run_block env b : mono (fun f => run_block env f b).
Proof.
  unfold run_block.
  apply (mono_bind (fun _ => core_wait env BLOCK_START_DURATION));
    [apply mono_const|]. intros _.
  apply (mono_bind (fun _ => shuffle_conditions env)); [apply mono_const|].
  intros _. apply mono_for_each. intros i. apply mono_run_trial.
Qed.

Lemma mono_experiment env : mono (experiment env).
Proof.
  unfold experiment, block_sequence.
  apply (mono_bind (fun _ => waitKeys env None)); [apply mono_const|].
  intros _.
  apply (mono_bind (fun f => for_each (range 1 (N_BLOCKS + 1)) (run_block env f))
                   (fun _ _ => (waitKeys env None ;;; ret tt)%prog)).
  - apply mono_for_each. intros b. apply mono_run_block.
  - intros _. apply mono_const.
Qed.

(** A loop finishes when each pass finishes from the states the loop can be
    in. *)
Lemma for_each_total {A} (body : nat -> A -> M unit) (Inv : State -> Prop)
      (l : list A) :
  (forall x, mono (fun f => body f x)) ->
  (forall x s, In x l -> Inv s ->
     exists f s', body f x s = Done tt s' /\ Inv s') ->
  forall s, Inv s ->
    exists f s', for_each l (body f) s = Done tt s' /\ Inv s'.
Proof.
  intros Hmono. induction l as [|x l IH]; intros Hbody s Hs.
  - exists O, s. split; [reflexivity|exact Hs].
  - destruct (Hbody x s (or_introl eq_refl) Hs) as (f1 & s1 & H1 & Hs1).
    destruct (IH (fun y t Hy => Hbody y t (or_intror Hy)) s1 Hs1)
      as (f2 & s2 & H2 & Hs2).
    exists (Nat.max f1 f2), s2. split; [|exact Hs2].
    simpl. apply bind_Done. exists tt, s1. split.
    + apply (Hmono x f1); [lia|exact H1].
    + apply (mono_for_each l body Hmono f2); [lia|exact H2].
Qed.

Section Completion.

Variable env : Env.
Hypothesis Hfair : fair env.
Hypothesis Hanswers : answers env.
Hypothesis Hreadable : readable_typing env.

Lemma shuffle_from_total k : forall x s,
  (k < length x)%nat \/ k = O ->
  exists x' s', shuffle_from env k x s = Done x' s'.
Proof.
  induction k as [|k IH]; intros x s Hk; [simpl; unfold ret; eauto|].
  destruct Hk as [Hk|Hk]; [|discriminate].
  cbn [shuffle_from]. unfold bind at 1. unfold randbelow at 1.
  set (j := entropy env (rng_pos (world s)) mod (Z.of_nat (S k) + 1)).
  assert (Hj : 0 <= j < Z.of_nat (S k) + 1) by (apply Z.mod_pos_bound; lia).
  destruct (lookup_lt_is_Some_2 x (Z.to_nat j)) as [xj Hxj]; [lia|].
  destruct (lookup_lt_is_Some_2 x (S k)) as [xk Hxk]; [lia|].
  unfold bind at 1. unfold swap. rewrite Hxj, Hxk. cbn [or_raise]. unfold ret at 1.
  apply IH. left. rewrite !length_insert. lia.
Qed.

Lemma shuffle_conditions_total s :
  exists s', shuffle_conditions env s = Done tt s'.
Proof.
  unfold shuffle_conditions. unfold bind at 1. unfold get.
  destruct (shuffle_from_total (length (conditions s) - 1) (conditions s) s)
    as (x' & s' & H); [lia|].
  unfold bind. rewrite H. unfold modify. eauto.
Qed.

Lemma waitKeys_any_total s : exists ks s', waitKeys env None s = Done ks s'.
Proof.
  unfold waitKeys. destruct (Hanswers (ask_pos (world s))) as (k & Hk & _).
  destruct (pressed env (ask_pos (world s))) as [|k0 rest]; [destruct Hk|].
  simpl. eauto.
Qed.

Lemma await_digit a :
  exists k left, await (Some digit_keys) (pressed env a) [] = Some (k, left).
Proof.
  destruct (await (Some digit_keys) (pressed env a) []) as [[k left]|] eqn:Haw;
    [eauto|exfalso].
  apply await_None in Haw. rewrite forallb_forall in Haw.
  destruct (Hanswers a) as (k & Hk & Hd). apply Haw in Hk.
  unfold accepts in Hk. rewrite Hd in Hk. discriminate.
Qed.

Lemma run_trial_total b i s n :
  conditions s !! Z.to_nat i = Some n -> 0 <= n <= 25 ->
  exists fuel s', run_trial env fuel b i s = Done tt s'.
Proof.
  intros Hn Hrange. destruct s as [[r0 c0 w0 a0 e0] cs d].
  cbn [conditions] in Hn.
  set (s2 := {| world := {| rng_pos := r0; clk_pos := c0; wait_pos := S w0;
                            ask_pos := a0; events := e0 ++ typed env w0 |};
                conditions := cs; data := d |}).
  destruct (place_circles_total env (Z.to_nat n) [] s2) as (fuel & ps & s3 & Hp).
  { simpl. lia. }
  { apply Hfair. }
  exists fuel.
  remember (run_trial env fuel b i _) as R eqn:HR.
  unfold run_trial in HR. unfold bind at 1 in HR. unfold get at 1 in HR.
  unfold bind at 1 in HR. cbn [conditions] in HR. rewrite Hn in HR.
  cbn [or_raise] in HR. unfold ret at 1 in HR. unfold bind at 1 in HR.
  unfold core_wait at 1 in HR. unfold set_world at 1, after_wait at 1 in HR.
  cbn [world events wait_pos rng_pos clk_pos ask_pos conditions data] in HR.
  fold s2 in HR. unfold bind at 1 in HR. unfold place at 1 in HR.
  rewrite Hp in HR.
  apply (place_Done env fuel n) in Hp as [m ->].
  unfold bind, clearEvents, modify, core_wait, getTime in HR.
  cbn -[ask] in HR. rewrite ask_result in HR.
  cbn -[must_wait await digit_keys int] in HR.
  destruct (must_wait env (typed env (S w0))) as [[|]|] eqn:Hmw.
  - destruct (await_digit a0) as (k & left & Haw). rewrite Haw in HR.
    apply await_Some in Haw as (_ & _ & _ & _ & Hacc & _).
    apply (digit_key_int (unicode env)) in Hacc as (v & Hv & _).
    cbn -[int] in HR. rewrite Hv in HR. cbn in HR.
    subst R. eauto.
  - apply must_wait_false in Hmw as (k & rest & v & Hstim & Hv & _).
    rewrite Hstim in HR. cbn -[int] in HR. rewrite Hv in HR. cbn in HR.
    subst R. eauto.
  - exfalso. apply must_wait_raises in Hmw as (k & Hk & Hu).
    destruct (typed env (S w0)) as [|k' rest] eqn:Hstim; [discriminate|].
    injection Hk as ->. exact (Hreadable _ _ _ Hstim Hu).
Qed.

Lemma Permutation_initial_bounds cs n :
  cs ≡ₚ initial_conditions -> In n cs -> 0 <= n <= 25.
Proof.
  intros Hperm Hin. apply list_elem_of_In in Hin. rewrite Hperm in Hin.
  apply list_elem_of_In in Hin. rewrite initial_conditions_value in Hin.
  simpl in Hin. lia.
Qed.

Lemma run_block_total b s :
  conditions s ≡ₚ initial_conditions ->
  exists fuel s', run_block env fuel b s = Done tt s' /\
                  conditions s' ≡ₚ initial_conditions.
Proof.
  intros Hperm.
  set (s1 := set_world s (after_wait (world s)
               (events (world s) ++ typed env (wait_pos (world s))))).
  destruct (shuffle_conditions_total s1) as (s2 & Hsh).
  pose proof (shuffle_conditions_Done env _ _ Hsh) as (Hc2 & _).
  assert (Hperm2 : conditions s2 ≡ₚ initial_conditions)
    by (rewrite Hc2; exact Hperm).
  destruct (for_each_total (fun f i => run_trial env f b i)
              (fun t => conditions t = conditions s2) (range 0 N_TRIALS))
    with (s := s2) as (fuel & s3 & Hrun & Hc3).
  - intros i. apply mono_run_trial.
  - intros i t Hi Ht.
    apply list_elem_of_In, list_elem_of_lookup in Hi as (j & Hj).
    apply range_lookup_Some in Hj as [-> Hjlt].
    assert (Hlen : length (conditions t) = Z.to_nat N_TRIALS)
      by (now rewrite Ht, Hperm2).
    destruct (lookup_lt_is_Some_2 (conditions t) (Z.to_nat (0 + Z.of_nat j)))
      as [n Hn]; [lia|].
    destruct (run_trial_total b (0 + Z.of_nat j) t n Hn) as (f & t' & Hrun).
    { apply (Permutation_initial_bounds (conditions t)).
      - now rewrite Ht.
      - apply list_elem_of_In. eapply list_elem_of_lookup_2; eauto. }
    exists f, t'. split; [exact Hrun|].
    apply run_trial_adds_row in Hrun as (_ & _ & _ & _ & _ & Hc). congruence.
  - reflexivity.
  - exists fuel, s3. split; [|now rewrite Hc3].
    unfold run_block. apply bind_Done. exists tt, s1. split; [reflexivity|].
    apply bind_Done. exists tt, s2. split; [exact Hsh|exact Hrun].
Qed.

(** With a fair generator, a participant who answers and no unreadable key
    typed first during a timed wait, the script runs to its end for every
    bound from some bound on. *)
Lemma run_completes :
  exists fuel s, forall fuel', (fuel <= fuel')%nat -> run env fuel' = Done tt s.
Proof.
  destruct (waitKeys_any_total initial_state) as (ks & s1 & H1).
  pose proof (waitKeys_Done env _ _ _ _ H1) as [Hc1 _].
  destruct (for_each_total (fun f b => run_block env f b)
              (fun t => conditions t ≡ₚ initial_conditions)
              (range 1 (N_BLOCKS + 1)))
    with (s := s1) as (fuel & s2 & H2 & Hc2).
  - intros b. apply mono_run_block.
  - intros b t _ Ht. apply run_block_total. exact Ht.
  - now rewrite Hc1.
  - destruct (waitKeys_any_total s2) as (ks' & s3 & H3).
    exists fuel, s3. intros fuel' Hf.
    apply (mono_experiment env fuel fuel' initial_state tt s3 Hf).
    unfold experiment, block_sequence.
    apply bind_Done. exists ks, s1. split; [exact H1|].
    apply bind_Done. exists tt, s2. split; [exact H2|].
    apply bind_Done. exists ks', s3. split; [exact H3|reflexivity].
Qed.

End Completion.

(** The sweep with a participant who presses "5" is such a session. *)
Lemma sweep_session_completes :
  exists fuel s,
    forall fuel', (fuel <= fuel')%nat -> run sweep_env fuel' = Done tt s.
Proof.
  exact (run_completes sweep_env sweep_fair sweep_answers sweep_readable).
Qed.

(** * Further properties *)

(** ** The table and its columns *)

Lemma zip6_length bs ts cs ps ws rs :
  length (zip6 bs ts cs ps ws rs) =
  Nat.min (length bs) (Nat.min (length ts) (Nat.min (length cs)
    (Nat.min (length ps) (Nat.min (length ws) (length rs))))).
Proof.
  revert ts cs ps ws rs. induction bs as [|b bs IH]; intros ts cs ps ws rs;
    [reflexivity|].
  destruct ts, cs, ps, ws, rs; simpl; try lia. rewrite IH. reflexivity.
Qed.

Lemma zip6_columns bs : forall ts cs ps ws rs n,
  length bs = n -> length ts = n -> length cs = n -> length ps = n ->
  length ws = n -> length rs = n ->
  map block (zip6 bs ts cs ps ws rs) = bs /\
  map trial (zip6 bs ts cs ps ws rs) = ts /\
  map n_objects_actual (zip6 bs ts cs ps ws rs) = cs /\
  map n_objects_guessed (zip6 bs ts cs ps ws rs) = ps /\
  map correct (zip6 bs ts cs ps ws rs) = ws /\
  map rt (zip6 bs ts cs ps ws rs) = rs.
Proof.
  induction bs as [|b bs IH]; intros ts cs ps ws rs n Hb Ht Hc Hp Hw Hr;
    destruct ts, cs, ps, ws, rs; simpl in *; subst n; try discriminate;
    auto 10.
  destruct (IH ts cs ps ws rs (length bs)) as (E1 & E2 & E3 & E4 & E5 & E6);
    try congruence.
  rewrite E1, E2, E3, E4, E5, E6. auto 10.
Qed.

(** X1.  The table has as many rows as the shortest of the six lists; when
    the six lists have the same length, no entry is lost: each column of the
    table is the list it was built from. *)
Theorem table_keeps_the_lists (d : Data) :
  length (results d) =
    Nat.min (length (block_n d)) (Nat.min (length (trial_n d))
      (Nat.min (length (correct_response d))
        (Nat.min (length (participant_response d))
          (Nat.min (length (was_correct d)) (length (rt_list d)))))) /\
  (forall n, aligned n d ->
     map block (results d) = block_n d /\
     map trial (results d) = trial_n d /\
     map n_objects_actual (results d) = correct_response d /\
     map n_objects_guessed (results d) = participant_response d /\
     map correct (results d) = was_correct d /\
     map rt (results d) = rt_list d).
Proof.
  split; [apply zip6_length|].
  intros n (H1 & H2 & H3 & H4 & H5 & H6). unfold results.
  now apply (zip6_columns _ _ _ _ _ _ n).
Qed.

Lemma table_keeps_the_lists_witness :
  aligned 1 (add_row empty_data one_row) /\
  map n_objects_actual (results (add_row empty_data one_row)) = [3].
Proof.
  assert (H : aligned 1 (add_row empty_data one_row))
    by (unfold aligned; simpl; auto 10).
  split; [exact H|].
  exact (proj1 (proj2 (proj2
    (proj2 (table_keeps_the_lists (add_row empty_data one_row)) 1%nat H)))).
Defined.

(** ** Sums and means *)

Lemma fold_left_Qplus xs : forall a,
  (fold_left Qplus xs a == a + total xs)%Q.
Proof.
  unfold total. induction xs as [|x xs IH]; intros a; simpl.
  - ring.
  - rewrite (IH (a + x)%Q), (IH (0 + x)%Q). ring.
Qed.

Lemma total_cons x xs : (total (x :: xs) == x + total xs)%Q.
Proof.
  unfold total at 1. simpl. rewrite fold_left_Qplus. ring.
Qed.

Lemma total_between xs (lo hi : Q) :
  Forall (fun v => (lo <= v <= hi)%Q) xs ->
  (lo * inject_Z (Z.of_nat (length xs)) <= total xs
   <= hi * inject_Z (Z.of_nat (length xs)))%Q.
Proof.
  induction 1 as [|x xs [Hlo Hhi] _ [IHlo IHhi]].
  - unfold total; simpl. split; ring_simplify; apply Qle_refl.
  - rewrite total_cons. cbn [length]. rewrite Nat2Z.inj_succ.
    unfold Z.succ. rewrite inject_Z_plus. split.
    + setoid_replace (lo * (inject_Z (Z.of_nat (length xs)) + inject_Z 1))%Q
        with (lo + lo * inject_Z (Z.of_nat (length xs)))%Q
        using relation Qeq by ring.
      now apply Qplus_le_compat.
    + setoid_replace (hi * (inject_Z (Z.of_nat (length xs)) + inject_Z 1))%Q
        with (hi + hi * inject_Z (Z.of_nat (length xs)))%Q
        using relation Qeq by ring.
      now apply Qplus_le_compat.
Qed.

(** The plain mean of values between two bounds lies between them, the
    lower one being at most zero and the upper one at least zero if there is
    no value at all. *)
Lemma mean_between xs (lo hi : Q) :
  (lo <= 0)%Q -> (0 <= hi)%Q ->
  Forall (fun v => (lo <= v <= hi)%Q) xs ->
  (lo <= mean xs <= hi)%Q.
Proof.
  intros Hlo Hhi Hall. apply total_between in Hall as [H1 H2].
  unfold mean. destruct xs as [|x xs].
  - unfold total; simpl. split; [exact Hlo|exact Hhi].
  - set (n := inject_Z (Z.of_nat (length (x :: xs)))) in *.
    assert (Hn : (0 < n)%Q).
    { unfold n. change 0%Q with (inject_Z 0). rewrite <- Zlt_Qlt.
      simpl length. lia. }
    split.
    + apply Qle_shift_div_l; [exact Hn|exact H1].
    + apply Qle_shift_div_r; [exact Hn|exact H2].
Qed.

Lemma mean_between_nonempty xs (lo hi : Q) :
  xs <> [] ->
  Forall (fun v => (lo <= v <= hi)%Q) xs ->
  (lo <= mean xs <= hi)%Q.
Proof.
  intros Hne Hall. apply total_between in Hall as [H1 H2].
  unfold mean. destruct xs as [|x xs]; [congruence|].
  set (n := inject_Z (Z.of_nat (length (x :: xs)))) in *.
  assert (Hn : (0 < n)%Q).
  { unfold n. change 0%Q with (inject_Z 0). rewrite <- Zlt_Qlt.
    simpl length. lia. }
  split.
  - apply Qle_shift_div_l; [exact Hn|exact H1].
  - apply Qle_shift_div_r; [exact Hn|exact H2].
Qed.

(** A mean of a group lies between any two bounds of the column. *)
Lemma groupby_mean_between key_of col rows (lo hi : Q) :
  Forall (fun r => (lo <= col r <= hi)%Q) rows ->
  forall k q, In (k, q) (groupby_mean key_of col rows) -> (lo <= q <= hi)%Q.
Proof.
  intros Hall k q Hin.
  destruct (groupby_mean_spec key_of col rows) as (_ & Hkeys & Hmean).
  rewrite (Hmean k q Hin).
  assert (Hk : In k (map key_of rows)).
  { apply Hkeys. change k with (fst (k, q)). now apply in_map. }
  apply mean_between_nonempty.
  - apply in_map_iff in Hk as (r & Hr & Hin').
    intros Hnil. apply map_eq_nil in Hnil.
    assert (Hg : In r (group_rows key_of k rows)).
    { apply filter_In. split; [exact Hin'|]. now apply Z.eqb_eq. }
    rewrite Hnil in Hg. destruct Hg.
  - apply List.Forall_forall. intros v Hv.
    apply in_map_iff in Hv as (r & <- & Hr).
    apply filter_In in Hr as [Hr _].
    rewrite List.Forall_forall in Hall. now apply Hall.
Qed.

Lemma column_mean_between col rows (lo hi : Q) q :
  Forall (fun r => (lo <= col r <= hi)%Q) rows ->
  column_mean col rows = Num q -> (lo <= q <= hi)%Q.
Proof.
  intros Hall Hq. destruct rows as [|r rows]; [discriminate|].
  injection Hq as <-.
  assert (H : (lo <= mean (map col (r :: rows)) <= hi)%Q).
  { apply mean_between_nonempty; [discriminate|].
    apply List.Forall_forall. intros v Hv.
    apply in_map_iff in Hv as (r' & <- & Hr).
    rewrite List.Forall_forall in Hall. now apply Hall. }
  unfold mean in H. rewrite length_map in H. exact H.
Qed.

(** ** The summary: response times *)

(** X2.  In the RT part of the summary, every block number of the table
    appears once in the per-block list and every number of circles once in
    the per-circles list, each with the plain mean of [rt] over the rows of
    that key; the overall RT of a table that has rows is the plain mean over
    all rows. *)
Theorem response_times_are_plain_means (rows : list Row) :
  let t := response_times rows in
  (NoDup (map fst (rt_per_block t)) /\
   (forall b, In b (map fst (rt_per_block t)) <-> In b (map block rows)) /\
   (forall b q, In (b, q) (rt_per_block t) ->
      (q == mean (map rt (group_rows block b rows)))%Q)) /\
  (NoDup (map fst (rt_per_circles t)) /\
   (forall n, In n (map fst (rt_per_circles t)) <->
              In n (map n_objects_actual rows)) /\
   (forall n q, In (n, q) (rt_per_circles t) ->
      (q == mean (map rt (group_rows n_objects_actual n rows)))%Q)) /\
  (rows <> [] -> rt_overall t = Num (mean (map rt rows))).
Proof.
  cbv zeta. unfold response_times;
    cbn [rt_per_block rt_per_circles rt_overall].
  split; [apply groupby_mean_spec|]. split; [apply groupby_mean_spec|].
  intros Hne. destruct rows as [|r rows]; [congruence|].
  unfold column_mean, mean. now rewrite length_map.
Qed.

Lemma response_times_are_plain_means_witness :
  rt_overall (response_times [one_row]) = Num (mean (map rt [one_row])).
Proof.
  pose proof (response_times_are_plain_means [one_row]) as H. cbv zeta in H.
  apply H. discriminate.
Defined.

Lemma is_correct_fraction r : (0 <= is_correct r <= 1)%Q.
Proof.
  unfold is_correct, as_number. destruct (correct r); split; discriminate.
Qed.

(** X3.  Every accuracy of the summary is a fraction: between 0 and 1, per
    block, per number of circles and overall, whatever the table. *)
Theorem accuracies_are_fractions (rows : list Row) :
  (forall b q, In (b, q) (per_block (accuracy rows)) -> (0 <= q <= 1)%Q) /\
  (forall n q, In (n, q) (per_circles (accuracy rows)) -> (0 <= q <= 1)%Q) /\
  (forall q, overall (accuracy rows) = Num q -> (0 <= q <= 1)%Q).
Proof.
  assert (Hall : Forall (fun r => (0 <= is_correct r <= 1)%Q) rows).
  { apply List.Forall_forall. intros r _. apply is_correct_fraction. }
  unfold accuracy; cbn [per_block per_circles overall]. repeat split.
  - eapply (groupby_mean_between block is_correct rows 0 1 Hall); eauto.
  - eapply (groupby_mean_between block is_correct rows 0 1 Hall); eauto.
  - eapply (groupby_mean_between n_objects_actual is_correct rows 0 1 Hall);
      eauto.
  - eapply (groupby_mean_between n_objects_actual is_correct rows 0 1 Hall);
      eauto.
  - eapply (column_mean_between is_correct rows 0 1 q Hall); eauto.
  - eapply (column_mean_between is_correct rows 0 1 q Hall); eauto.
Qed.

Lemma accuracies_are_fractions_witness :
  exists q, overall (accuracy [one_row]) = Num q /\ (0 <= q <= 1)%Q.
Proof.
  eexists. split; [reflexivity|].
  apply (proj2 (proj2 (accuracies_are_fractions [one_row]))). reflexivity.
Defined.

(** ** The circles on the screen *)

Lemma square_nonneg (a : Q) : (0 <= a * a)%Q.
Proof. nra. Qed.

Lemma in_circle_near c u :
  in_circle c u ->
  (inject_Z (fst c) - 9 <= fst u <= inject_Z (fst c) + 9)%Q /\
  (inject_Z (snd c) - 9 <= snd u <= inject_Z (snd c) + 9)%Q.
Proof.
  unfold in_circle. change (inject_Z (CIRCLE_RADIUS * CIRCLE_RADIUS)) with 81%Q.
  set (a := (fst u - inject_Z (fst c))%Q). set (b := (snd u - inject_Z (snd c))%Q).
  intros H. pose proof (square_nonneg a). pose proof (square_nonneg b).
  assert (Ha : (a * a <= 81)%Q) by lra. assert (Hb : (b * b <= 81)%Q) by lra.
  assert (Ha' : (-9 <= a <= 9)%Q) by (split; nra).
  assert (Hb' : (-9 <= b <= 9)%Q) by (split; nra).
  unfold a, b in Ha', Hb'. split; split; lra.
Qed.

Lemma circles_share_no_point p q u :
  apart p q -> in_circle p u -> ~ in_circle q u.
Proof.
  unfold apart, in_circle, dist2.
  change (inject_Z (CIRCLE_RADIUS * CIRCLE_RADIUS)) with 81%Q.
  change (CIRCLE_DIAMETER ^ 2)%Z with 324%Z.
  destruct p as [px py], q as [qx qy], u as [ux uy]. cbn [fst snd].
  intros Hap Hp Hq.
  pose proof (square_nonneg ((ux - inject_Z px) + (ux - inject_Z qx))).
  pose proof (square_nonneg ((uy - inject_Z py) + (uy - inject_Z qy))).
  assert (Hd : ((inject_Z px - inject_Z qx) * (inject_Z px - inject_Z qx) +
                (inject_Z py - inject_Z qy) * (inject_Z py - inject_Z qy)
                <= 324)%Q) by lra.
  assert (Hz : ((px - qx) * (px - qx) + (py - qy) * (py - qy) <= 324)%Z).
  { rewrite Zle_Qle. rewrite inject_Z_plus, !inject_Z_mult.
    unfold Z.sub. rewrite !inject_Z_plus, !inject_Z_opp. exact Hd. }
  rewrite !Z.pow_2_r in Hap. lia.
Qed.

(** X5.  Whenever the placement returns, the circles drawn at the returned
    positions (discs of radius 9, outline included) lie strictly inside the
    white frame and keep clear of the padding of 200 pixels along the edges
    of the window, and no two of them share a point. *)
Theorem circles_inside_frame_and_disjoint env fuel n s ps s' :
  place env fuel n s = Done ps s' ->
  (forall p u, In p ps -> in_circle p u ->
     inside_border u /\ clear_of_padding u) /\
  (forall i j p q u, i <> j -> ps !! i = Some p -> ps !! j = Some q ->
     in_circle p u -> ~ in_circle q u).
Proof.
  intros Hrun.
  pose proof (place_circles_Done env fuel _ [] s ps s'
                (List.Forall_nil _) pairwise_apart_nil Hrun)
    as (_ & Hbox & Hap & _).
  split.
  - intros p u Hp Hu. rewrite Forall_forall in Hbox.
    apply list_elem_of_In, Hbox in Hp. destruct Hp as [Hx Hy].
    rewrite x_lo_value, x_hi_value in Hx. rewrite y_lo_value, y_hi_value in Hy.
    apply in_circle_near in Hu as [Hux Huy].
    assert (Hpx : (inject_Z (-81) <= inject_Z (fst p) <= inject_Z 81)%Q)
      by (rewrite <- !Zle_Qle; lia).
    assert (Hpy : (inject_Z (-81) <= inject_Z (snd p) <= inject_Z 81)%Q)
      by (rewrite <- !Zle_Qle; lia).
    unfold inside_border, clear_of_padding.
    change (inject_Z ((WINDOW_X - WINDOW_PADDING) / 2)) with 200%Q.
    change (inject_Z ((WINDOW_Y - WINDOW_PADDING) / 2)) with 200%Q.
    change (inject_Z (WINDOW_X / 2 - WINDOW_PADDING)) with 100%Q.
    change (inject_Z (WINDOW_Y / 2 - WINDOW_PADDING)) with 100%Q.
    change (inject_Z (-81)) with (-81)%Q in *.
    change (inject_Z 81) with 81%Q in *.
    repeat split; lra.
  - intros i j p q u Hij Hp Hq. apply circles_share_no_point.
    exact (Hap i j p q Hij Hp Hq).
Qed.

Lemma circles_inside_frame_and_disjoint_witness :
  exists ps s',
    place sample_env 40 7 initial_state = Done ps s' /\
    (forall p u, In p ps -> in_circle p u ->
       inside_border u /\ clear_of_padding u).
Proof.
  eexists. eexists.
  assert (H : place sample_env 40 7 initial_state = Done _ _)
    by (vm_compute; reflexivity).
  split; [exact H|].
  exact (proj1 (circles_inside_frame_and_disjoint _ _ _ _ _ _ H)).
Defined.

(** ** What the placement draws and leaves alone *)

Lemma place_circles_draws env fuel k : forall acc s ps s',
  place_circles env fuel k acc s = Done ps s' ->
  exists m, (k <= m)%nat /\ s' = after_draws s (2 * m).
Proof.
  induction k as [|k IH]; intros acc s ps s' H; simpl in H.
  - apply ret_Done in H as [_ <-]. exists O. split; [lia|].
    now destruct s as [[] ? ?].
  - run_inv H. apply find_position_Done in Hstep as (j & _ & _ & _ & ->).
    apply IH in H as (m & Hm & ->). exists (j + 1 + m)%nat. split; [lia|].
    rewrite after_draws_plus. f_equal. lia.
Qed.

(** X6.  The placement changes nothing but the position of the generator:
    the condition list, the results lists, the event buffer and the clock,
    wait and prompt counters are as before, and the generator has given two
    raw values for each candidate, so an even number of them and at least
    two for each circle. *)
Theorem placement_only_draws env fuel n s ps s' :
  place env fuel n s = Done ps s' ->
  conditions s' = conditions s /\ data s' = data s /\
  events (world s') = events (world s) /\
  clk_pos (world s') = clk_pos (world s) /\
  wait_pos (world s') = wait_pos (world s) /\
  ask_pos (world s') = ask_pos (world s) /\
  exists m, (Z.to_nat n <= m)%nat /\
            rng_pos (world s') = (2 * m + rng_pos (world s))%nat.
Proof.
  intros H. apply place_circles_draws in H as (m & Hm & ->).
  unfold after_draws; cbn. repeat split; auto. exists m. auto.
Qed.

Lemma placement_only_draws_witness :
  exists ps s' m,
    place sample_env 40 7 initial_state = Done ps s' /\
    (7 <= m)%nat /\ rng_pos (world s') = (2 * m + 0)%nat.
Proof.
  eexists. eexists.
  assert (H : place sample_env 40 7 initial_state = Done _ _)
    by (vm_compute; reflexivity).
  destruct (placement_only_draws _ _ _ _ _ _ H)
    as (_ & _ & _ & _ & _ & _ & m & Hm & Hr).
  exists m. split; [exact H|]. split; [exact Hm|exact Hr].
Defined.

(** ** A generator that is stuck *)

Lemma check_valid_self x y : check_valid x y [(x, y)] = false.
Proof.
  simpl. unfold too_close, dist2. rewrite !Z.sub_diag. reflexivity.
Qed.

Lemma find_position_stuck env p fuel : forall s,
  (forall k, candidate env (rng_pos (world s) + 2 * k) = p) ->
  find_position env fuel [p] s = Timeout.
Proof.
  induction fuel as [|fuel IH]; intros s Hall; [reflexivity|].
  rewrite find_position_unfold. cbv zeta.
  assert (H0 : candidate env (rng_pos (world s)) = p).
  { rewrite <- (Hall O). f_equal. lia. }
  rewrite H0. destruct p as [x y]. cbn [fst snd].
  rewrite (check_valid_self x y). apply IH. intros k.
  rewrite <- (Hall (S k)). f_equal. unfold after_draws; cbn. lia.
Qed.

(** X7.  With a generator that keeps drawing one and the same point, the
    placement of two or more circles never ends: the first circle takes the
    point, every later candidate is rejected, and whatever bound is put on
    the number of draws is exceeded. *)
Theorem stuck_generator_never_places_two env fuel n s :
  (forall k, candidate env (rng_pos (world s) + 2 * k)
             = candidate env (rng_pos (world s))) ->
  2 <= n ->
  place env fuel n s = Timeout.
Proof.
  intros Hall Hn. unfold place.
  destruct (Z.to_nat n) as [|[|k]] eqn:Hk; try lia.
  cbn [place_circles]. unfold bind at 1.
  destruct fuel as [|fuel]; [reflexivity|].
  rewrite find_position_unfold. cbv zeta. cbn [check_valid app].
  unfold bind at 1.
  rewrite (find_position_stuck env (candidate env (rng_pos (world s)))).
  - reflexivity.
  - intros j. rewrite <- (Hall (S j)). f_equal.
    unfold after_draws; cbn. lia.
Qed.

Lemma stuck_generator_never_places_two_witness :
  place {| entropy := fun _ => 0; clock := clock sample_env;
           typed := typed sample_env; pressed := pressed sample_env;
           unicode := unicode_excerpt |}
        1000 2 initial_state = Timeout.
Proof.
  apply stuck_generator_never_places_two; [reflexivity|lia].
Defined.

(** ** More circles than the box can hold *)

Lemma range_In lo hi x : In x (range lo hi) <-> lo <= x < hi.
Proof.
  unfold range. rewrite in_map_iff. split.
  - intros (i & <- & Hi). apply in_seq in Hi. lia.
  - intros Hx. exists (Z.to_nat (x - lo)). split; [lia|].
    apply in_seq. lia.
Qed.

Lemma cell_in_cells p : in_box p -> In (cell p) cells.
Proof.
  intros [Hx Hy]. rewrite x_lo_value, x_hi_value in Hx.
  rewrite y_lo_value, y_hi_value in Hy.
  unfold cell, cells. rewrite x_lo_value, y_lo_value.
  apply in_prod; apply range_In.
  - pose proof (Z.div_pos (fst p - -81) 13).
    assert ((fst p - -81) / 13 < 13) by (apply Z.div_lt_upper_bound; lia).
    lia.
  - pose proof (Z.div_pos (snd p - -81) 13).
    assert ((snd p - -81) / 13 < 13) by (apply Z.div_lt_upper_bound; lia).
    lia.
Qed.

Lemma same_cell_too_close p q : cell p = cell q -> ~ apart p q.
Proof.
  unfold cell, apart, dist2. destruct p as [px py], q as [qx qy].
  cbn [fst snd]. intros [= Hx Hy].
  change (CIRCLE_DIAMETER ^ 2) with 324. rewrite !Z.pow_2_r.
  assert (Hdx : -12 <= px - qx <= 12)
    by (revert Hx; generalize x_lo; intros; Z.div_mod_to_equations; lia).
  assert (Hdy : -12 <= py - qy <= 12)
    by (revert Hy; generalize y_lo; intros; Z.div_mod_to_equations; lia).
  nia.
Qed.

(** Positions of the box that are pairwise apart are at most 169. *)
Lemma apart_positions_bounded ps :
  Forall in_box ps -> pairwise_apart ps -> (length ps <= 169)%nat.
Proof.
  intros Hbox Hap.
  assert (Hnd : List.NoDup (map cell ps)).
  { apply NoDup_ListNoDup, NoDup_alt. intros i j c Hi Hj.
    rewrite list_lookup_fmap in Hi, Hj.
    destruct (ps !! i) as [p|] eqn:Hp; [|discriminate].
    destruct (ps !! j) as [q|] eqn:Hq; [|discriminate].
    simpl in Hi, Hj. destruct (decide (i = j)) as [|Hne]; [assumption|].
    exfalso. apply (same_cell_too_close p q); [congruence|].
    exact (Hap i j p q Hne Hp Hq). }
  assert (Hincl : incl (map cell ps) cells).
  { intros c Hc. apply in_map_iff in Hc as (p & <- & Hp).
    apply cell_in_cells. rewrite List.Forall_forall in Hbox. auto. }
  pose proof (NoDup_incl_length Hnd Hincl) as Hlen.
  rewrite length_map in Hlen. exact Hlen.
Qed.

(** X8.  The box has room for at most 169 circles that do not overlap:
    asked for more, the placement never ends, whatever the generator draws
    and whatever bound is put on the number of draws. *)
Theorem too_many_circles_never_placed env fuel n s :
  169 < n -> place env fuel n s = Timeout.
Proof.
  intros Hn. unfold place.
  destruct (place_circles_outcome env fuel (Z.to_nat n) [] s)
    as [(ps & s' & H)|H]; [exfalso|exact H].
  apply place_circles_Done in H as (Hlen & Hbox & Hap & _);
    [|constructor|apply pairwise_apart_nil].
  pose proof (apart_positions_bounded ps Hbox Hap). simpl in Hlen. lia.
Qed.

Lemma too_many_circles_never_placed_witness :
  place sample_env 3 170 initial_state = Timeout.
Proof. apply too_many_circles_never_placed. lia. Defined.

(** ** The shuffle *)

Lemma swap_length x i j x' : swap x i j = Some x' -> length x' = length x.
Proof.
  unfold swap. destruct (x !! j); [|discriminate].
  destruct (x !! i); [|discriminate].
  intros [= <-]. now rewrite !length_insert.
Qed.

(** X9.  Shuffling the conditions never fails, whatever the generator draws
    and whatever the list holds (an empty list and a list of one entry are
    left as they are, without a draw): the list afterwards is a
    rearrangement of the list before, the generator has given one raw value
    for each entry but one, and nothing else has changed. *)
Theorem shuffle_never_fails env s :
  exists s',
    shuffle_conditions env s = Done tt s' /\
    conditions s' ≡ₚ conditions s /\
    data s' = data s /\
    world s' = world (after_draws s (length (conditions s) - 1)).
Proof.
  destruct (shuffle_from_total env (length (conditions s) - 1) (conditions s) s)
    as (x' & s1 & H); [lia|].
  pose proof (shuffle_from_Done env _ _ _ _ _ H) as [Hperm ->].
  exists (set_conditions (after_draws s (length (conditions s) - 1)) x').
  split; [|auto].
  unfold shuffle_conditions, bind, get. rewrite H. reflexivity.
Qed.

(** ** The columns of the results *)

Lemma blocks_trial_numbers env blocks :
  blocks_ok env blocks ->
  concat (map (map trial) blocks)
  = concat (replicate (length blocks) (range 0 N_TRIALS)).
Proof.
  intros Hok.
  assert (Hall : Forall (fun xs => map trial xs = range 0 N_TRIALS) blocks).
  { apply Forall_lookup. intros j xs Hj.
    destruct (Hok j xs Hj) as (cs & _ & _ & _ & Htr). exact Htr. }
  clear Hok. induction Hall as [|xs blocks Hxs _ IH]; [reflexivity|].
  cbn [map concat replicate length]. now rewrite Hxs, IH.
Qed.

Lemma zip_with_columns {A} (f : Z -> Z -> bool) (g h : A -> Z) (l : list A) :
  zip_with f (map g l) (map h l) = map (fun x => f (g x) (h x)) l.
Proof. induction l as [|x l IH]; simpl; [reflexivity|now rewrite IH]. Qed.

(** X10.  The trial numbers stored are counted from 0 and start again with
    every block: at the end of the [k]-th trial of block [nb + 1], [trial_n]
    is [nb] times 0, 1, ..., 9, followed by 0, ..., k - 1. *)
Theorem trial_numbers_from_zero env fuel (nb k : nat) s :
  Z.of_nat nb < N_BLOCKS -> Z.of_nat k <= N_TRIALS ->
  upto env fuel nb k initial_state = Done tt s ->
  trial_n (data s)
  = concat (replicate nb (range 0 N_TRIALS)) ++ range 0 (Z.of_nat k).
Proof.
  intros _ Hk H.
  apply upto_Done in H
    as (blocks & cur & Hlen & Hok & _ & _ & _ & Htr & Hd).
  2:{ change (Z.to_nat N_TRIALS) with 10%nat. unfold N_TRIALS in Hk. lia. }
  destruct (add_rows_columns (concat blocks ++ cur) empty_data)
    as (_ & E & _).
  rewrite Hd, E. cbn [trial_n empty_data app].
  rewrite map_app, concat_map, Htr, (blocks_trial_numbers env _ Hok), Hlen.
  reflexivity.
Qed.

Lemma trial_numbers_from_zero_witness :
  exists s, upto sample_env 40 1 3 initial_state = Done tt s /\
            trial_n (data s) = [0; 1; 2; 3; 4; 5; 6; 7; 8; 9; 0; 1; 2].
Proof.
  eexists.
  assert (H : upto sample_env 40 1 3 initial_state = Done tt _)
    by (vm_compute; reflexivity).
  split; [exact H|].
  exact (trial_numbers_from_zero sample_env 40 1 3 _ eq_refl
           ltac:(unfold N_TRIALS; lia) H).
Defined.

(** X11.  Every entry of [was_correct] is the comparison of the number of
    circles shown with the digit stored as the response, as integers: the
    list is the element-wise equality test of [correct_response] and
    [participant_response]. *)
Theorem was_correct_compares_stored_digit env fuel (nb k : nat) s :
  Z.of_nat nb < N_BLOCKS -> Z.of_nat k <= N_TRIALS ->
  upto env fuel nb k initial_state = Done tt s ->
  was_correct (data s)
  = zip_with Z.eqb (correct_response (data s)) (participant_response (data s)).
Proof.
  intros _ Hk H.
  apply (upto_rows env fuel) in H as (rows & Hd & _ & Hrows).
  2:{ change (Z.to_nat N_TRIALS) with 10%nat. unfold N_TRIALS in Hk. lia. }
  destruct (add_rows_columns rows empty_data) as (_ & _ & Ec & Ep & Ew & _).
  rewrite Hd, Ec, Ep, Ew. cbn [correct_response participant_response
    was_correct empty_data app].
  rewrite zip_with_columns. apply map_ext_in. intros x Hx.
  rewrite List.Forall_forall in Hrows.
  destruct (Hrows x Hx) as (b & _ & _ & Hc & _). exact Hc.
Qed.

Lemma was_correct_compares_stored_digit_witness :
  exists s,
    upto sample_env 40 2 10 initial_state = Done tt s /\
    was_correct (data s)
    = zip_with Z.eqb (correct_response (data s))
                     (participant_response (data s)).
Proof.
  eexists.
  assert (H : upto sample_env 40 2 10 initial_state = Done tt _)
    by (vm_compute; reflexivity).
  split; [exact H|].
  exact (was_correct_compares_stored_digit sample_env 40 2 10 _ eq_refl
           ltac:(unfold N_TRIALS; lia) H).
Defined.

(** ** The readings of the clock *)

Section Clock.

Variable env : Env.
Variable fuel : nat.

Lemma timed_quiet s s' :
  data s' = data s -> clk_pos (world s') = clk_pos (world s) ->
  timed env s -> timed env s'.
Proof. unfold timed. intros -> ->. auto. Qed.

Lemma run_trial_timed b i s s' :
  timed env s -> run_trial env fuel b i s = Done tt s' -> timed env s'.
Proof.
  intros [Hc Hr] H. apply run_trial_Done in H. cbv zeta in H.
  destruct H as (n & k & r & draws & asked & left & _ & _ & _ & _ & Hd & Hw).
  unfold timed. rewrite Hd, Hw. cbn [clk_pos rt_list with_row].
  rewrite length_app. cbn [length]. split; [lia|].
  replace (length (rt_list (data s)) + 1)%nat
    with (S (length (rt_list (data s)))) by lia.
  rewrite seq_S, map_app, <- Hr. cbn [map Nat.add]. unfold rt_at.
  now rewrite <- Hc.
Qed.

Lemma for_each_keeps {A} (P : State -> Prop) (l : list A) (body : A -> M unit) :
  (forall x s s', P s -> body x s = Done tt s' -> P s') ->
  forall s s', P s -> for_each l body s = Done tt s' -> P s'.
Proof.
  intros Hbody s s' Hs Hrun.
  apply (for_each_invariant (fun _ => P) l body) with (s := s); auto.
  intros k x t t' _. apply Hbody.
Qed.

Lemma waitKeys_timed keyList s ks s' :
  timed env s -> waitKeys env keyList s = Done ks s' -> timed env s'.
Proof.
  unfold waitKeys. destruct (await _ _ _) as [[k rest]|]; [|discriminate].
  intros Ht [= <- <-]. revert Ht. apply timed_quiet; reflexivity.
Qed.

Lemma core_wait_timed secs s u s' :
  timed env s -> core_wait env secs s = Done u s' -> timed env s'.
Proof.
  unfold core_wait. intros Ht [= _ <-]. revert Ht.
  apply timed_quiet; reflexivity.
Qed.

Lemma shuffle_conditions_timed s s' :
  timed env s -> shuffle_conditions env s = Done tt s' -> timed env s'.
Proof.
  intros Ht H. apply shuffle_conditions_Done in H as (_ & Hd & draws & Hw).
  revert Ht. apply timed_quiet; [exact Hd|now rewrite Hw].
Qed.

Lemma run_block_timed b s s' :
  timed env s -> run_block env fuel b s = Done tt s' -> timed env s'.
Proof.
  intros Ht H. unfold run_block in H. run_inv H. destruct v0.
  apply (core_wait_timed _ _ _ _ Ht) in Hstep.
  apply (shuffle_conditions_timed _ _ Hstep) in Hstep0.
  revert H. apply for_each_keeps; [|exact Hstep0].
  intros i t t'. apply run_trial_timed.
Qed.

Lemma upto_timed (nb k : nat) s :
  upto env fuel nb k initial_state = Done tt s -> timed env s.
Proof.
  intros H. unfold upto in H. run_inv H. destruct v0, v1, v2.
  assert (H0 : timed env initial_state) by (split; reflexivity).
  apply (waitKeys_timed _ _ _ _ H0) in Hstep.
  apply (for_each_keeps (timed env) _ _ run_block_timed _ _ Hstep) in Hstep0.
  apply (core_wait_timed _ _ _ _ Hstep0) in Hstep1.
  apply (shuffle_conditions_timed _ _ Hstep1) in Hstep2.
  revert H. apply for_each_keeps; [|exact Hstep2].
  intros i t t'. apply run_trial_timed.
Qed.

End Clock.

(** X12.  The clock is read exactly twice in every trial and nowhere else:
    at the end of the [k]-th trial of block [nb + 1] it has been read
    2 * (10 * nb + k) times, and the response time stored for the trial
    number [t] of the run (from 0) is the reading number 2t + 1 less the
    reading number 2t. *)
Theorem response_times_are_reading_pairs env fuel (nb k : nat) s :
  Z.of_nat nb < N_BLOCKS -> Z.of_nat k <= N_TRIALS ->
  upto env fuel nb k initial_state = Done tt s ->
  clk_pos (world s) = (2 * (Z.to_nat N_TRIALS * nb + k))%nat /\
  rt_list (data s) = map (rt_at env) (seq 0 (Z.to_nat N_TRIALS * nb + k)).
Proof.
  intros _ Hk H.
  assert (Hk' : (k <= Z.to_nat N_TRIALS)%nat)
    by (change (Z.to_nat N_TRIALS) with 10%nat; unfold N_TRIALS in Hk; lia).
  pose proof (upto_aligned env fuel nb k s Hk' H) as (_ & _ & _ & _ & _ & Hlen).
  destruct (upto_timed env fuel nb k s H) as [Hc Hr].
  rewrite Hlen in Hc, Hr. auto.
Qed.

Lemma response_times_are_reading_pairs_witness :
  exists s, upto sample_env 40 1 4 initial_state = Done tt s /\
            clk_pos (world s) = 28%nat.
Proof.
  eexists.
  assert (H : upto sample_env 40 1 4 initial_state = Done tt _)
    by (vm_compute; reflexivity).
  split; [exact H|].
  exact (proj1 (response_times_are_reading_pairs sample_env 40 1 4 _ eq_refl
                  ltac:(unfold N_TRIALS; lia) H)).
Defined.

(** ** No exception *)

Section NoException.

Variable env : Env.
Variable fuel : nat.
Hypothesis Hreadable : readable_typing env.

Lemma fine_bind {A} (m : M A) (k : A -> M unit) (Q : A -> State -> Prop)
      (R : State -> Prop) s :
  match m s with
  | Done a s' => Q a s'
  | Raise => False
  | _ => True
  end ->
  (forall a s', Q a s' -> fine (k a s') R) ->
  fine (bind m k s) R.
Proof.
  unfold bind. destruct (m s) as [a s'| | |]; simpl; auto.
Qed.

Lemma for_each_fine {A} (P : State -> Prop) (l : list A) (body : A -> M unit) :
  (forall x s, In x l -> P s -> fine (body x s) P) ->
  forall s, P s -> fine (for_each l body s) P.
Proof.
  induction l as [|x l IH]; intros Hbody s Hs; [exact Hs|].
  simpl. apply (fine_bind (body x) _ (fun _ => P)).
  - specialize (Hbody x s (or_introl eq_refl) Hs).
    unfold fine in Hbody. destruct (body x s); auto.
  - intros _ s' Hs'. apply IH; [|exact Hs'].
    intros y t Hy. apply Hbody. now right.
Qed.

Lemma run_trial_fine b i s n :
  conditions s !! Z.to_nat i = Some n ->
  fine (run_trial env fuel b i s) (fun s' => conditions s' = conditions s).
Proof.
  intros Hn. destruct s as [[r0 c0 w0 a0 e0] cs d].
  cbn [conditions] in *.
  set (s2 := {| world := {| rng_pos := r0; clk_pos := c0; wait_pos := S w0;
                            ask_pos := a0; events := e0 ++ typed env w0 |};
                conditions := cs; data := d |}).
  remember (run_trial env fuel b i _) as R eqn:HR.
  unfold run_trial in HR. unfold bind at 1 in HR. unfold get at 1 in HR.
  unfold bind at 1 in HR. cbn [conditions] in HR. rewrite Hn in HR.
  cbn [or_raise] in HR. unfold ret at 1 in HR. unfold bind at 1 in HR.
  unfold core_wait at 1 in HR. unfold set_world at 1, after_wait at 1 in HR.
  cbn [world events wait_pos rng_pos clk_pos ask_pos conditions data] in HR.
  fold s2 in HR. unfold bind at 1 in HR. unfold place at 1 in HR.
  destruct (place_circles_outcome env fuel (Z.to_nat n) [] s2)
    as [(ps & s3 & Hp)|Hp]; rewrite Hp in HR; [|subst R; exact I].
  apply (place_Done env fuel n) in Hp as [m ->].
  unfold bind, clearEvents, modify, core_wait, getTime in HR.
  cbn -[ask] in HR. rewrite ask_result in HR.
  cbn -[must_wait await digit_keys int] in HR.
  destruct (must_wait env (typed env (S w0))) as [[|]|] eqn:Hmw.
  - destruct (await (Some digit_keys) (pressed env a0) [])
      as [[k left]|] eqn:Haw; [|subst R; exact I].
    apply await_Some in Haw as (_ & _ & _ & _ & Hacc & _).
    apply (digit_key_int (unicode env)) in Hacc as (v & Hv & _).
    cbn -[int] in HR. rewrite Hv in HR. cbn in HR. subst R. reflexivity.
  - apply must_wait_false in Hmw as (k & rest & v & Hstim & Hv & _).
    rewrite Hstim in HR. cbn -[int] in HR. rewrite Hv in HR. cbn in HR.
    subst R. reflexivity.
  - exfalso. apply must_wait_raises in Hmw as (k & Hk & Hu).
    destruct (typed env (S w0)) as [|k' rest] eqn:Hstim; [discriminate|].
    injection Hk as ->. exact (Hreadable _ _ _ Hstim Hu).
Qed.

Lemma run_block_fine b s :
  conditions s ≡ₚ initial_conditions ->
  fine (run_block env fuel b s) (fun s' => conditions s' ≡ₚ initial_conditions).
Proof.
  intros Hperm. unfold run_block.
  apply (fine_bind _ _ (fun _ t => conditions t ≡ₚ initial_conditions)).
  { unfold core_wait. simpl. exact Hperm. }
  intros _ s1 H1.
  destruct (shuffle_conditions_total env s1) as (s2 & Hsh).
  pose proof (shuffle_conditions_Done env _ _ Hsh) as (Hc2 & _).
  apply (fine_bind _ _ (fun _ t => conditions t ≡ₚ initial_conditions)).
  { rewrite Hsh. now rewrite Hc2. }
  intros _ s3 H3.
  assert (Hlen : length (conditions s3) = Z.to_nat N_TRIALS)
    by (now rewrite H3).
  pose proof (for_each_fine (fun t => conditions t = conditions s3)
                (range 0 N_TRIALS) (run_trial env fuel b)) as Hloop.
  assert (Hfine : fine (for_each (range 0 N_TRIALS) (run_trial env fuel b) s3)
                       (fun t => conditions t = conditions s3)).
  { apply Hloop; [|reflexivity]. intros i t Hi Ht.
    apply range_In in Hi.
    destruct (lookup_lt_is_Some_2 (conditions t) (Z.to_nat i)) as [n Hn].
    { rewrite Ht, Hlen. change (Z.to_nat N_TRIALS) with 10%nat.
      unfold N_TRIALS in Hi. lia. }
    pose proof (run_trial_fine b i t n Hn) as Hf.
    unfold fine in *. destruct (run_trial env fuel b i t); auto. congruence. }
  unfold fine in *.
  destruct (for_each (range 0 N_TRIALS) (run_trial env fuel b) s3); auto.
  now rewrite Hfine.
Qed.

End NoException.

(** X13.  On the Python versions that PsychoPy runs on (up to 3.11, where
    [random.randint] takes the integral float bounds of lines 200-204), the
    only exception between the first and the last wait for a key is the
    ValueError of line 238.  If the first key typed during a timed wait is
    never one that [isnumeric] accepts and [int] refuses, the script raises
    nothing, whatever is drawn and pressed: it ends, or waits for ever for
    a key, or goes on drawing candidates (the bound of the placement is
    exceeded).  In particular [conditions[trial_i]] and [keys[0]] are never
    out of range, and [int(keys[0])] of line 241 converts its key. *)
Theorem run_never_raises env fuel :
  readable_typing env ->
  (exists s, run env fuel = Done tt s) \/
  run env fuel = Hang \/ run env fuel = Timeout.
Proof.
  intros Hreadable.
  assert (H : fine (run env fuel) (fun _ => True)).
  { unfold run, experiment.
    apply (fine_bind _ _ (fun _ t => conditions t ≡ₚ initial_conditions)).
    { pose proof (waitKeys_Done env None initial_state) as Hw.
      destruct (waitKeys env None initial_state) as [ks s1| | |] eqn:E; auto.
      - destruct (Hw ks s1 eq_refl) as [-> _]. reflexivity.
      - unfold waitKeys in E. destruct (await _ _ _) as [[? ?]|]; discriminate. }
    intros _ s1 H1.
    apply (fine_bind _ _ (fun _ _ => True)).
    { unfold block_sequence.
      pose proof (for_each_fine (fun t => conditions t ≡ₚ initial_conditions)
                    (range 1 (N_BLOCKS + 1)) (run_block env fuel)
                    (fun b t _ Ht => run_block_fine env fuel Hreadable b t Ht)
                    s1 H1)
        as Hf.
      unfold fine in Hf.
      destruct (for_each (range 1 (N_BLOCKS + 1)) (run_block env fuel) s1);
        auto. }
    intros _ s2 _.
    apply (fine_bind _ _ (fun _ _ => True)).
    { unfold waitKeys. destruct (await _ _ _) as [[? ?]|]; exact I. }
    intros _ s3 _. exact I. }
  unfold fine in H. destruct (run env fuel) as [[] s| | |]; eauto.
  contradiction.
Qed.

Lemma run_never_raises_witness :
  (exists s, run sample_env 40 = Done tt s) \/
  run sample_env 40 = Hang \/ run sample_env 40 = Timeout.
Proof. exact (run_never_raises sample_env 40 sample_readable). Defined.

(** ** The summary of a whole run *)

Section WholeRun.

Variable env : Env.
Variable fuel : nat.

(** The table of a finished run: three blocks of rows. *)
Lemma run_three_blocks s :
  run env fuel = Done tt s ->
  exists x1 x2 x3 c1 c2 c3,
    results (data s) = x1 ++ x2 ++ x3 /\
    block_ok env 1 c1 x1 /\ block_ok env 2 c2 x2 /\ block_ok env 3 c3 x3 /\
    c1 ≡ₚ initial_conditions /\ c2 ≡ₚ initial_conditions /\
    c3 ≡ₚ initial_conditions.
Proof.
  intros H. apply run_upto in H as (s' & H & ->).
  apply upto_Done in H
    as (blocks & cur & Hlen & Hok & Hc & Hcur & Hact & Htr & Hd);
    [|reflexivity].
  destruct blocks as [|x1 [|x2 [|? ?]]]; try discriminate.
  destruct (Hok 0%nat x1 eq_refl) as (c1 & Hc1 & Hx1).
  destruct (Hok 1%nat x2 eq_refl) as (c2 & Hc2 & Hx2).
  exists x1, x2, cur, c1, c2, (conditions s').
  rewrite Hd, results_add_rows. simpl. rewrite app_nil_r, <- app_assoc.
  repeat split; auto; try apply Hx1; try apply Hx2.
  rewrite Hact. apply firstn_all2. rewrite Hc. reflexivity.
Qed.

Lemma total_app xs ys : (total (xs ++ ys) == total xs + total ys)%Q.
Proof.
  induction xs as [|x xs IH]; simpl.
  - unfold total at 2; simpl. ring.
  - rewrite !total_cons, IH. ring.
Qed.

(** Among rows that trials have added, those with ten circles are all
    marked as wrong: the number of correct rows is at most the number of
    rows less the number of rows with ten circles. *)
Lemma total_correct_bound rows :
  Forall (fun x => exists b, row_ok env b x) rows ->
  (total (map is_correct rows)
   + inject_Z (Z.of_nat (count_occ Z.eq_dec (map n_objects_actual rows) 10%Z))
   <= inject_Z (Z.of_nat (length rows)))%Q.
Proof.
  induction 1 as [|x rows (b & Hx) _ IH].
  - unfold total; simpl. discriminate.
  - cbn [map length]. rewrite total_cons, Nat2Z.inj_succ. unfold Z.succ.
    rewrite inject_Z_plus. pose proof (is_correct_fraction x) as [_ H1].
    destruct (Z.eq_dec (n_objects_actual x) 10) as [E|E].
    + rewrite (count_occ_cons_eq _ _ E), Nat2Z.inj_succ. unfold Z.succ.
      rewrite inject_Z_plus.
      assert (H0 : is_correct x = 0%Q).
      { unfold is_correct. now rewrite (ten_circles_never_correct env b x Hx E). }
      rewrite H0. change (inject_Z 1) with 1%Q. lra.
    + rewrite (count_occ_cons_neq _ _ E). change (inject_Z 1) with 1%Q. lra.
Qed.

Lemma block_total_bound b cs xs :
  cs ≡ₚ initial_conditions -> block_ok env b cs xs ->
  length xs = 10%nat /\ (total (map is_correct xs) <= 9)%Q.
Proof.
  intros Hperm Hok.
  pose proof (block_ok_length env b cs xs Hok) as Hlen.
  change (Z.to_nat N_TRIALS) with 10%nat in Hlen. split; [exact Hlen|].
  destruct Hok as (Hrows & Hact & _).
  assert (Hall : Forall (fun x => exists b, row_ok env b x) xs)
    by (eapply Forall_impl; [exact Hrows|]; eauto).
  pose proof (total_correct_bound xs Hall) as Hb.
  rewrite Hact, Hlen in Hb.
  rewrite (proj1 (Permutation_count_occ Z.eq_dec cs initial_conditions) Hperm)
    in Hb.
  change (inject_Z (Z.of_nat (count_occ Z.eq_dec initial_conditions 10)))
    with 1%Q in Hb.
  change (inject_Z (Z.of_nat 10)) with 10%Q in Hb. lra.
Qed.

Lemma group_rows_tagged key_of (t k : Z) xs :
  Forall (fun x => key_of x = t) xs ->
  group_rows key_of k xs = if t =? k then xs else [].
Proof.
  unfold group_rows. induction 1 as [|x xs Hx _ IH]; simpl.
  - now destruct (t =? k).
  - rewrite Hx, IH. now destruct (t =? k).
Qed.

Lemma block_ok_tagged b cs xs :
  block_ok env b cs xs -> Forall (fun x => block x = b) xs.
Proof.
  intros (Hrows & _). eapply Forall_impl; [exact Hrows|].
  intros x Hx. apply Hx.
Qed.

End WholeRun.

Lemma column_mean_nonempty col rows :
  rows <> [] ->
  column_mean col rows
  = Num (total (map col rows) / inject_Z (Z.of_nat (length rows)))%Q.
Proof. destruct rows; [congruence|reflexivity]. Qed.

Lemma run_rows_ok env fuel s :
  run env fuel = Done tt s ->
  Forall (fun x => exists b, row_ok env b x) (results (data s)).
Proof.
  intros H. apply run_three_blocks in H
    as (x1 & x2 & x3 & c1 & c2 & c3 & -> & H1 & H2 & H3 & _).
  rewrite !Forall_app. repeat split.
  - destruct H1 as (Hr & _). eapply Forall_impl; [exact Hr|]. eauto.
  - destruct H2 as (Hr & _). eapply Forall_impl; [exact Hr|]. eauto.
  - destruct H3 as (Hr & _). eapply Forall_impl; [exact Hr|]. eauto.
Qed.

(** X14.  In the summary of every finished run, the accuracy printed for
    ten circles is 0: the responses stored are the digits 0 to 9, so no
    trial with ten circles is ever marked as correct. *)
Theorem ten_circles_accuracy_is_zero env fuel s :
  run env fuel = Done tt s ->
  exists q, In (10, q) (per_circles (accuracy (results (data s)))) /\
            (q == 0)%Q.
Proof.
  intros H. pose proof (run_rows_ok env fuel s H) as Hrows.
  apply run_three_blocks in H
    as (x1 & x2 & x3 & c1 & c2 & c3 & Hres & H1 & _ & _ & Hc1 & _).
  set (rows := results (data s)) in *.
  unfold accuracy; cbn [per_circles].
  destruct (groupby_mean_spec n_objects_actual is_correct rows)
    as (_ & Hkeys & Hmean).
  assert (Hin : In 10 (map n_objects_actual rows)).
  { rewrite Hres, map_app. apply in_or_app. left.
    destruct H1 as (_ & -> & _). apply list_elem_of_In. rewrite Hc1.
    apply list_elem_of_In. rewrite initial_conditions_value. simpl. tauto. }
  apply Hkeys, in_map_iff in Hin as ([k q] & Hk & Hq). simpl in Hk. subst k.
  exists q. split; [exact Hq|].
  assert (Hb : (0 <= mean (map is_correct (group_rows n_objects_actual 10 rows))
                <= 0)%Q).
  { apply mean_between; try apply Qle_refl.
    apply List.Forall_forall. intros v Hv.
    apply in_map_iff in Hv as (x & <- & Hx).
    apply filter_In in Hx as [Hx Hten]. apply Z.eqb_eq in Hten.
    rewrite List.Forall_forall in Hrows. destruct (Hrows x Hx) as (b & Hok).
    unfold is_correct. rewrite (ten_circles_never_correct env b x Hok Hten).
    split; apply Qle_refl. }
  rewrite (Hmean 10 q Hq). apply Qle_antisym; apply Hb.
Qed.

Lemma ten_circles_accuracy_is_zero_witness :
  exists s q, run sample_env 40 = Done tt s /\
              In (10, q) (per_circles (accuracy (results (data s)))) /\
              (q == 0)%Q.
Proof.
  eexists.
  assert (H : run sample_env 40 = Done tt _) by (vm_compute; reflexivity).
  destruct (ten_circles_accuracy_is_zero sample_env 40 _ H) as (q & Hq).
  exists q. split; [exact H|exact Hq].
Defined.

(** X15.  In the summary of every finished run, no accuracy printed for a
    block exceeds 9/10, and neither does the overall accuracy: each block
    has one trial with ten circles, which is never marked as correct. *)
Theorem accuracy_at_most_nine_tenths env fuel s :
  run env fuel = Done tt s ->
  (forall b q, In (b, q) (per_block (accuracy (results (data s)))) ->
     (q <= 9 # 10)%Q) /\
  (exists q, overall (accuracy (results (data s))) = Num q /\
             (q <= 9 # 10)%Q).
Proof.
  intros H.
  apply run_three_blocks in H
    as (x1 & x2 & x3 & c1 & c2 & c3 & Hres & H1 & H2 & H3 & Hc1 & Hc2 & Hc3).
  set (rows := results (data s)) in *.
  destruct (block_total_bound env 1 c1 x1 Hc1 H1) as [L1 T1].
  destruct (block_total_bound env 2 c2 x2 Hc2 H2) as [L2 T2].
  destruct (block_total_bound env 3 c3 x3 Hc3 H3) as [L3 T3].
  pose proof (block_ok_tagged env _ _ _ H1) as G1.
  pose proof (block_ok_tagged env _ _ _ H2) as G2.
  pose proof (block_ok_tagged env _ _ _ H3) as G3.
  unfold accuracy; cbn [per_block overall]. split.
  - intros b q Hq.
    destruct (groupby_mean_spec block is_correct rows) as (_ & Hkeys & Hmean).
    rewrite (Hmean b q Hq).
    assert (Hb : In b (map block rows)).
    { apply Hkeys. change b with (fst (b, q)). now apply in_map. }
    assert (Hg : exists xs, group_rows block b rows = xs /\
                            length xs = 10%nat /\
                            (total (map is_correct xs) <= 9)%Q).
    { unfold group_rows at 1. rewrite Hres, !List.filter_app.
      fold (group_rows block b x1) (group_rows block b x2)
           (group_rows block b x3).
      rewrite (group_rows_tagged block 1 b x1 G1),
              (group_rows_tagged block 2 b x2 G2),
              (group_rows_tagged block 3 b x3 G3).
      rewrite Hres, !map_app, !in_app_iff in Hb.
      assert (Hcases : b = 1 \/ b = 2 \/ b = 3).
      { rewrite List.Forall_forall in G1, G2, G3.
        destruct Hb as [Hb|[Hb|Hb]];
          apply in_map_iff in Hb as (x & <- & Hx);
          [rewrite (G1 x Hx)|rewrite (G2 x Hx)|rewrite (G3 x Hx)]; auto. }
      destruct Hcases as [-> | [-> | ->]]; simpl; rewrite ?app_nil_r; eauto. }
    destruct Hg as (xs & -> & Hlen & Ht).
    unfold mean. rewrite length_map, Hlen.
    apply Qle_shift_div_r; [reflexivity|].
    change ((9 # 10) * inject_Z (Z.of_nat 10))%Q with ((9 # 10) * 10)%Q. lra.
  - assert (Hlen : length rows = 30%nat)
      by (rewrite Hres, !length_app, L1, L2, L3; reflexivity).
    assert (Ht : (total (map is_correct rows) <= 27)%Q).
    { rewrite Hres, !map_app, !total_app. lra. }
    eexists. split.
    + apply column_mean_nonempty. intros Hnil. rewrite Hnil in Hlen.
      discriminate.
    + rewrite Hlen. apply Qle_shift_div_r; [reflexivity|].
      change ((9 # 10) * inject_Z (Z.of_nat 30))%Q with ((9 # 10) * 30)%Q.
      lra.
Qed.

Lemma accuracy_at_most_nine_tenths_witness :
  exists s q, run sample_env 40 = Done tt s /\
              overall (accuracy (results (data s))) = Num q /\
              (q <= 9 # 10)%Q.
Proof.
  eexists.
  assert (H : run sample_env 40 = Done tt _) by (vm_compute; reflexivity).
  destruct (proj2 (accuracy_at_most_nine_tenths sample_env 40 _ H))
    as (q & Hq).
  exists q. split; [exact H|exact Hq].
Defined.

(** Two lists in strictly ascending order with the same members are the same
    list. *)
Lemma ascending_same_members (l l' : list Z) :
  StronglySorted Z.lt l -> StronglySorted Z.lt l' ->
  (forall x, In x l <-> In x l') -> l = l'.
Proof.
  intros Hl. revert l'. induction Hl as [|a l Hs IH Ha]; intros l' Hl' Hm.
  - destruct l' as [|b l']; [reflexivity|].
    destruct (proj2 (Hm b) (or_introl eq_refl)).
  - destruct Hl' as [|b l' Hs' Hb].
    { destruct (proj1 (Hm a) (or_introl eq_refl)). }
    rewrite List.Forall_forall in Ha, Hb.
    assert (Hab : a = b).
    { destruct (proj1 (Hm a) (or_introl eq_refl)) as [Hab|Hab]; [auto|].
      destruct (proj2 (Hm b) (or_introl eq_refl)) as [Hba|Hba]; [auto|].
      apply Hb in Hab. apply Ha in Hba. lia. }
    subst b. f_equal. apply IH; [exact Hs'|]. intros x. split; intros Hx.
    + destruct (proj1 (Hm x) (or_intror Hx)) as [->|Hx']; [|exact Hx'].
      apply Ha in Hx. lia.
    + destruct (proj2 (Hm x) (or_intror Hx)) as [->|Hx']; [|exact Hx'].
      apply Hb in Hx. lia.
Qed.

Lemma groupby_mean_ascending key_of col rows :
  StronglySorted Z.lt (map fst (groupby_mean key_of col rows)).
Proof.
  rewrite groupby_mean_keys. apply (groupby_groups_of key_of col rows).
Qed.

Lemma groupby_mean_lines key_of col rows (keys : list Z) :
  StronglySorted Z.lt keys ->
  (forall k, In k (map key_of rows) <-> In k keys) ->
  map fst (groupby_mean key_of col rows) = keys.
Proof.
  intros Hs Hm. apply ascending_same_members;
    [apply groupby_mean_ascending|exact Hs|].
  intros k. rewrite <- Hm. apply groupby_mean_spec.
Qed.

Lemma ascending_literal (l : list Z) :
  (forallb (fun p => fst p <? snd p)
           (flat_map (fun i => map (fun j => (nth i l 0, nth j l 0))
                                   (seq (S i) (length l - S i)))
                     (seq 0 (length l))) = true) ->
  StronglySorted Z.lt l.
Proof.
  intros H. rewrite forallb_forall in H.
  assert (Hlt : forall i j, (i < j < length l)%nat -> nth i l 0 < nth j l 0).
  { intros i j Hij. apply Z.ltb_lt.
    apply (H (nth i l 0, nth j l 0)). apply in_flat_map. exists i. split.
    - apply in_seq. lia.
    - apply in_map_iff. exists j. split; [reflexivity|]. apply in_seq. lia. }
  clear H. induction l as [|a l IH]; constructor.
  - apply IH. intros i j Hij. apply (Hlt (S i) (S j)). simpl. lia.
  - apply List.Forall_forall. intros x Hx.
    destruct (In_nth l x 0 Hx) as (j & Hj & <-).
    apply (Hlt O (S j)). simpl. lia.
Qed.

(** X16.  The summary of every finished run has one line for each of the
    blocks 1, 2, 3 and one line for each number of circles 1, ..., 10, in
    this order, in its accuracy part and in its RT part alike. *)
Theorem summary_lines_of_a_run env fuel s :
  run env fuel = Done tt s ->
  let rows := results (data s) in
  map fst (per_block (accuracy rows)) = [1; 2; 3] /\
  map fst (per_circles (accuracy rows)) = [1; 2; 3; 4; 5; 6; 7; 8; 9; 10] /\
  map fst (rt_per_block (response_times rows)) = [1; 2; 3] /\
  map fst (rt_per_circles (response_times rows))
    = [1; 2; 3; 4; 5; 6; 7; 8; 9; 10].
Proof.
  intros H. cbv zeta.
  apply run_three_blocks in H
    as (x1 & x2 & x3 & c1 & c2 & c3 & Hres & H1 & H2 & H3 & Hc1 & Hc2 & Hc3).
  set (rows := results (data s)) in *.
  assert (Hblocks : forall k, In k (map block rows) <-> In k [1; 2; 3]).
  { intros k. rewrite Hres, !map_app, !in_app_iff.
    pose proof (block_ok_tagged env _ _ _ H1) as G1.
    pose proof (block_ok_tagged env _ _ _ H2) as G2.
    pose proof (block_ok_tagged env _ _ _ H3) as G3.
    pose proof (block_ok_length env _ _ _ H1) as L1.
    pose proof (block_ok_length env _ _ _ H2) as L2.
    pose proof (block_ok_length env _ _ _ H3) as L3.
    rewrite List.Forall_forall in G1, G2, G3. split.
    - intros [Hk|[Hk|Hk]]; apply in_map_iff in Hk as (x & <- & Hx);
        [rewrite (G1 x Hx)|rewrite (G2 x Hx)|rewrite (G3 x Hx)];
        simpl; tauto.
    - intros [<-|[<-|[<-|[]]]].
      + left. destruct x1 as [|x ?]; [discriminate|].
        rewrite <- (G1 x (or_introl eq_refl)). now left.
      + right; left. destruct x2 as [|x ?]; [discriminate|].
        rewrite <- (G2 x (or_introl eq_refl)). now left.
      + right; right. destruct x3 as [|x ?]; [discriminate|].
        rewrite <- (G3 x (or_introl eq_refl)). now left. }
  assert (Hcircles : forall k, In k (map n_objects_actual rows) <->
                               In k [1; 2; 3; 4; 5; 6; 7; 8; 9; 10]).
  { intros k. rewrite Hres, !map_app, !in_app_iff.
    destruct H1 as (_ & -> & _), H2 as (_ & -> & _), H3 as (_ & -> & _).
    rewrite <- initial_conditions_value.
    rewrite <- !list_elem_of_In, Hc1, Hc2, Hc3. tauto. }
  assert (S3 : StronglySorted Z.lt [1; 2; 3])
    by (apply ascending_literal; reflexivity).
  assert (S10 : StronglySorted Z.lt [1; 2; 3; 4; 5; 6; 7; 8; 9; 10])
    by (apply ascending_literal; reflexivity).
  unfold accuracy, response_times;
    cbn [per_block per_circles rt_per_block rt_per_circles].
  repeat split; apply groupby_mean_lines; assumption.
Qed.

Lemma summary_lines_of_a_run_witness :
  exists s, run sample_env 40 = Done tt s /\
            map fst (per_block (accuracy (results (data s)))) = [1; 2; 3].
Proof.
  eexists.
  assert (H : run sample_env 40 = Done tt _) by (vm_compute; reflexivity).
  split; [exact H|].
  exact (proj1 (summary_lines_of_a_run sample_env 40 _ H)).
Defined.

(** ** Every order can come out of the shuffle *)

(** Exchanging the entry [k] with an entry [j <= k] that holds the value
    wanted at [k]: the entries after [k] stay, the entry [k] gets the value,
    the entries before [k] are rearranged. *)
Lemma swap_into_place (x : list Z) (k j : nat) (v xk : Z) :
  (j <= k)%nat -> x !! j = Some v -> x !! k = Some xk ->
  exists x',
    swap x k j = Some x' /\ length x' = length x /\
    x' !! k = Some v /\ drop (S k) x' = drop (S k) x /\
    take (S k) x' ≡ₚ take (S k) x.
Proof.
  intros Hj Hv Hk. exists (<[j := xk]> (<[k := v]> x)).
  assert (Hklt : (k < length x)%nat) by (eapply lookup_lt_Some; eauto).
  split; [unfold swap; now rewrite Hv, Hk|].
  split; [now rewrite !length_insert|]. split; [|split].
  - destruct (decide (j = k)) as [->|Hne].
    + rewrite list_lookup_insert_eq by (rewrite length_insert; lia).
      congruence.
    + rewrite list_lookup_insert_ne by exact Hne.
      now rewrite list_lookup_insert_eq.
  - rewrite !drop_insert_lt by lia. reflexivity.
  - rewrite !take_insert_lt by lia.
    apply Permutation_insert_swap; rewrite lookup_take_lt by lia; assumption.
Qed.

Lemma shuffle_reaches k : forall (x t : list Z),
  length x = length t -> (k < length x)%nat ->
  take (S k) x ≡ₚ take (S k) t -> drop (S k) x = drop (S k) t ->
  exists js, length js = k /\
    forall env s,
      (forall i, (i < k)%nat ->
         entropy env (rng_pos (world s) + i) = nth i js 0) ->
      shuffle_from env k x s = Done t (after_draws s k).
Proof.
  induction k as [|k IH]; intros x t Hlen Hk Htake Hdrop.
  - exists []. split; [reflexivity|]. intros env s _.
    destruct x as [|a x], t as [|b t]; simpl in *; try lia.
    apply Permutation_singleton_l in Htake. injection Htake as <-.
    unfold drop in Hdrop. subst t.
    unfold ret. f_equal. now destruct s as [[] ? ?].
  - destruct (lookup_lt_is_Some_2 t (S k)) as [v Hv]; [lia|].
    destruct (lookup_lt_is_Some_2 x (S k)) as [xk Hxk]; [lia|].
    assert (Hin : v ∈ take (S (S k)) x).
    { rewrite Htake. apply list_elem_of_lookup. exists (S k).
      rewrite lookup_take_lt by lia. exact Hv. }
    apply list_elem_of_lookup in Hin as (j & Hj).
    assert (Hjlt : (j < S (S k))%nat).
    { apply lookup_lt_Some in Hj. rewrite length_take in Hj. lia. }
    rewrite lookup_take_lt in Hj by exact Hjlt.
    destruct (swap_into_place x (S k) j v xk) as (x' & Hswap & Hlen' & Hk' & Hd' & Ht');
      [lia|exact Hj|exact Hxk|].
    destruct (IH x' t) as (js & Hjs & Hrun).
    + congruence.
    + rewrite Hlen'. lia.
    + apply (Permutation_app_inv_r [v]).
      rewrite <- (take_S_r x' (S k) v Hk'), <- (take_S_r t (S k) v Hv).
      now rewrite Ht'.
    + rewrite (drop_S x' v (S k) Hk'), (drop_S t v (S k) Hv), Hd', Hdrop.
      reflexivity.
    + exists (Z.of_nat j :: js). split; [simpl; congruence|].
      intros env s Hent. cbn [shuffle_from].
      apply bind_Done. eexists _, _. split; [apply randbelow_Done; eauto|].
      rewrite <- (Nat.add_0_r (rng_pos (world s))), (Hent O) by lia.
      cbn [nth]. rewrite Z.mod_small by lia. rewrite Nat2Z.id, Hswap.
      apply bind_Done. eexists _, _. split; [reflexivity|].
      rewrite Hrun.
      * f_equal. destruct s as [[r c w a e] cs d].
        unfold after_draws, set_world, advance_rng; simpl. do 2 f_equal. lia.
      * intros i Hi. cbn [world set_world advance_rng rng_pos].
        replace (S (rng_pos (world s)) + i)%nat
          with (rng_pos (world s) + S i)%nat by lia.
        rewrite Hent by lia. reflexivity.
Qed.

(** X17.  Every order of the conditions can come out of the shuffle: for
    every rearrangement of the condition list there are raw values (one for
    each entry but one) such that, when the generator gives them, the
    shuffle leaves the conditions in that order. *)
Theorem shuffle_reaches_every_order (s : State) (target : list Z) :
  target ≡ₚ conditions s ->
  exists js, S (length js) = Nat.max 1 (length target) /\
    forall env,
      (forall i, (i < length js)%nat ->
         entropy env (rng_pos (world s) + i) = nth i js 0) ->
      exists s', shuffle_conditions env s = Done tt s' /\
                 conditions s' = target.
Proof.
  intros Hperm.
  assert (Hlen : length (conditions s) = length target) by (now rewrite Hperm).
  destruct (conditions s) as [|c cs] eqn:Hcs.
  - apply Permutation_nil_r in Hperm. subst target. exists [].
    split; [reflexivity|]. intros env _. eexists. split.
    + unfold shuffle_conditions, bind, get. rewrite Hcs. reflexivity.
    + reflexivity.
  - destruct (shuffle_reaches (length cs) (c :: cs) target)
      as (js & Hjs & Hrun).
    + exact Hlen.
    + simpl. lia.
    + rewrite !firstn_all2 by (simpl in *; lia). now symmetry.
    + rewrite !skipn_all2 by (simpl in *; lia). reflexivity.
    + exists js. split; [rewrite Hjs, <- Hlen; simpl; lia|].
      intros env Hent. eexists. split.
      * unfold shuffle_conditions, bind, get. rewrite Hcs.
        replace (length (c :: cs) - 1)%nat with (length cs)
          by (simpl; lia).
        rewrite Hrun; [reflexivity|].
        intros i Hi. apply Hent. lia.
      * reflexivity.
Qed.

Lemma shuffle_reaches_every_order_witness :
  exists js, S (length js) = Nat.max 1 (length (rev initial_conditions)) /\
    forall env,
      (forall i, (i < length js)%nat ->
         entropy env (rng_pos (world initial_state) + i) = nth i js 0) ->
      exists s', shuffle_conditions env initial_state = Done tt s' /\
                 conditions s' = rev initial_conditions.
Proof.
  apply (shuffle_reaches_every_order initial_state (rev initial_conditions)).
  symmetry. apply Permutation_rev.
Defined.

(** ** The name of the results file *)

Lemma append_inv_head (a b c : string) :
  (a ++ b)%string = (a ++ c)%string -> b = c.
Proof. induction a as [|x a IH]; simpl; [auto|]. intros [= H]. auto. Qed.

Lemma string_append_assoc (a b c : string) :
  ((a ++ b) ++ c)%string = (a ++ (b ++ c))%string.
Proof. induction a as [|x a IH]; simpl; [reflexivity|]. now rewrite IH. Qed.

(** A string is cut in one way only at the first occurrence of a character
    that its first part does not have. *)
Lemma cut_at_char c : forall (a a' r r' : string),
  has_char c a = false -> has_char c a' = false ->
  (a ++ String c r)%string = (a' ++ String c r')%string ->
  a = a' /\ r = r'.
Proof.
  induction a as [|x a IH]; intros a' r r' Ha Ha' H; destruct a' as [|x' a'];
    simpl in *.
  - injection H as ->. auto.
  - injection H as <- _. rewrite Ascii.eqb_refl in Ha'. discriminate.
  - injection H as -> _. rewrite Ascii.eqb_refl in Ha. discriminate.
  - injection H as -> H. apply orb_false_iff in Ha as [_ Ha].
    apply orb_false_iff in Ha' as [_ Ha'].
    destruct (IH a' r r' Ha Ha' H) as [-> ->]. auto.
Qed.

Lemma digits_have_no_sign (d : uint) :
  has_char "_" (NilEmpty.string_of_uint d) = false /\
  has_char "-" (NilEmpty.string_of_uint d) = false.
Proof. induction d; simpl; auto. Qed.

Lemma str_has_no_underscore z : has_char "_" (str z) = false.
Proof.
  unfold str. destruct (Z.to_int z) as [d|d]; simpl;
    apply digits_have_no_sign.
Qed.

Lemma str_nat_has_no_minus n : has_char "-" (str (Z.of_nat n)) = false.
Proof.
  unfold str. destruct (Z.of_nat n) as [|p|p] eqn:E; try lia; simpl;
    try reflexivity; apply digits_have_no_sign.
Qed.

Lemma str_inj a b : str a = str b -> a = b.
Proof.
  unfold str. intros H. apply DecimalZ.to_int_inj.
  apply (f_equal NilEmpty.int_of_string) in H.
  rewrite !NilEmpty.isi in H. now injection H.
Qed.

Lemma path_join_relative_inj dir (a b : string) :
  String.prefix "/" a = false -> String.prefix "/" b = false ->
  path_join dir a = path_join dir b -> a = b.
Proof.
  unfold path_join. intros -> ->.
  destruct (String.eqb dir "" || ends_with "/" dir); intros H;
    apply append_inv_head in H; [exact H|].
  now injection H.
Qed.

(** X18.  For a given working directory, the name of the results file tells
    the subject number and the date: two names are the same only if the
    subject numbers are the same and the days, months and years are the
    same. *)
Theorem experiment_filename_tells_subject_and_date
    directory (n n' : Z) (date date' : Date) :
  experiment_filename directory n date
  = experiment_filename directory n' date' ->
  n = n' /\ date = date'.
Proof.
  unfold experiment_filename. intros H.
  apply path_join_relative_inj in H; [|reflexivity|reflexivity].
  cbn [String.append] in H. injection H as H.
  apply cut_at_char in H as [Hn H]; try apply str_has_no_underscore.
  apply str_inj in Hn. split; [exact Hn|].
  unfold date_text in H. cbn [String.append] in H.
  rewrite !string_append_assoc in H. cbn [String.append] in H.
  apply cut_at_char in H as [Hd H]; try apply str_nat_has_no_minus.
  rewrite !string_append_assoc in H. cbn [String.append] in H.
  apply cut_at_char in H as [Hm H]; try apply str_nat_has_no_minus.
  apply cut_at_char in H as [Hy _]; try apply str_has_no_underscore.
  apply str_inj, Nat2Z.inj in Hd, Hm, Hy.
  destruct date, date'; simpl in *. congruence.
Qed.

Lemma experiment_filename_tells_subject_and_date_witness :
  experiment_filename "/home/lab" 7 {| day := 12; month := 3; year := 2024 |}
  = "/home/lab/data/subject7_12-3-2024_results.csv" /\
  (7 = 7 /\
   {| day := 12; month := 3; year := 2024 |}
   = {| day := 12; month := 3; year := 2024 |}).
Proof.
  split; [reflexivity|].
  apply (experiment_filename_tells_subject_and_date "/home/lab").
  reflexivity.
Defined.

(** ** A whole session *)

(** X19.  With a fair generator, a participant who presses a digit key at
    every wait and no unreadable key typed first during a timed wait, the
    script runs to its end for every bound of the rejection loop from some
    bound on, with one and the same final state, and the results table then
    has one row for each trial of each block. *)
Theorem session_fills_the_table env :
  fair env -> answers env -> readable_typing env ->
  exists fuel s,
    (forall fuel', (fuel <= fuel')%nat -> run env fuel' = Done tt s) /\
    length (results (data s)) = Z.to_nat (N_BLOCKS * N_TRIALS).
Proof.
  intros Hfair Hanswers Hreadable.
  destruct (run_completes env Hfair Hanswers Hreadable) as (fuel & s & Hrun).
  exists fuel, s. split; [exact Hrun|].
  destruct (run_three_blocks env fuel s (Hrun fuel (Nat.le_refl fuel)))
    as (x1 & x2 & x3 & c1 & c2 & c3 & -> & (_ & _ & H1) & (_ & _ & H2)
        & (_ & _ & H3) & _).
  apply (f_equal (@length Z)) in H1, H2, H3.
  rewrite length_map in H1, H2, H3.
  rewrite !length_app, H1, H2, H3. reflexivity.
Qed.

Lemma session_fills_the_table_witness :
  exists fuel s,
    (forall fuel', (fuel <= fuel')%nat -> run sweep_env fuel' = Done tt s) /\
    length (results (data s)) = Z.to_nat (N_BLOCKS * N_TRIALS).
Proof.
  exact (session_fills_the_table sweep_env sweep_fair sweep_answers
           sweep_readable).
Defined.

(** ** The response prompt, case by case *)

(** X20.  A trial is decided by the keys typed while the circles were shown
    ([stim], the second timed wait of the trial) and the keys pressed
    afterwards ([later]).
    - Whatever the buffer holds when the trial starts and whatever is typed
      during the fixation (the first timed wait), the trial does the same:
      the buffer is emptied before the circles appear.
    - If the first key of [stim] is a valid digit (decimal digits, of any
      script, that make a number from 0 to 9), a trial that ends has that
      number as its response and has spent no wait.  Otherwise a trial that
      ends has been through a wait on the ten digit keys: its response is
      the first digit key of [later], and the keys passed over are left in
      the buffer.
    - If the first key of [stim] is missing, not numeric or a number out of
      range, and [later] holds no digit key, the trial does not end: it
      hangs in the wait (unless the placement ran out of its bound, or the
      condition list has no entry for the trial).
    - If the first key of [stim] is numeric and [int] does not convert it,
      the trial ends in the ValueError of line 238 (unless the placement
      ran out of its bound), whatever is pressed afterwards. *)
Theorem prompt_takes_waits_or_raises env fuel b i s :
  let stim := typed env (S (wait_pos (world s))) in
  let later := pressed env (ask_pos (world s)) in
  (forall ks ev,
     run_trial (retyped env (wait_pos (world s)) ks) fuel b i (with_events s ev)
     = run_trial env fuel b i s) /\
  (forall s', run_trial env fuel b i s = Done tt s' ->
     exists k r,
       int (unicode env) k = Some r /\
       participant_response (data s') = participant_response (data s) ++ [r] /\
       (((exists k0, head stim = Some k0 /\ valid_digit env k0) /\
         head stim = Some k /\
         ask_pos (world s') = ask_pos (world s))
        \/
        (~ (exists k0, head stim = Some k0 /\ valid_digit env k0) /\
         ask_pos (world s') = S (ask_pos (world s)) /\
         exists passed rest,
           later = passed ++ k :: rest /\
           key_in k digit_keys = true /\
           Forall (fun k' => key_in k' digit_keys = false) passed /\
           events (world s') = passed))) /\
  (~ (exists k0, head stim = Some k0 /\
                 (valid_digit env k0 \/ unreadable env k0)) ->
   Forall (fun k' => key_in k' digit_keys = false) later ->
   run_trial env fuel b i s = Hang \/
   run_trial env fuel b i s = Timeout \/
   conditions s !! Z.to_nat i = None) /\
  ((exists k0, head stim = Some k0 /\ unreadable env k0) ->
   run_trial env fuel b i s = Raise \/ run_trial env fuel b i s = Timeout).
Proof.
  cbv zeta. split; [|split; [|split]].
  - intros ks ev. apply run_trial_ignores_fixation.
  - intros s' H. apply run_trial_Done in H. cbv zeta in H.
    destruct H as (n & k & r & draws & asked & left & _ & Hr & Hkeys & _ & Hd & Hw).
    exists k, r. split; [exact Hr|]. split; [rewrite Hd; reflexivity|].
    destruct Hkeys as [(Hmw & Hk & -> & ->)|(Hmw & Haw & ->)].
    + left. split; [now apply must_wait_spec|]. split; [exact Hk|].
      now rewrite Hw.
    + right. split.
      { intros Hv. apply must_wait_spec in Hv. congruence. }
      split; [now rewrite Hw|].
      apply await_Some in Haw as (passed & rest & Hl & Hleft & Hacc & Hpassed).
      exists passed, rest. split; [exact Hl|]. split; [exact Hacc|].
      split.
      * apply Forall_forall. intros k' Hk'. rewrite forallb_forall in Hpassed.
        apply list_elem_of_In, Hpassed in Hk'. now apply negb_true_iff in Hk'.
      * rewrite Hw. simpl. exact Hleft.
  - intros Hno Hlater. apply run_trial_stuck.
    + destruct (must_wait env _) as [[|]|] eqn:Hmw; [reflexivity| |].
      * apply must_wait_spec in Hmw as (k0 & Hk0 & Hv).
        exfalso. apply Hno. exists k0. auto.
      * apply must_wait_raises in Hmw as (k0 & Hk0 & Hu).
        exfalso. apply Hno. exists k0. auto.
    + apply await_None, forallb_forall. intros k' Hk'.
      rewrite List.Forall_forall in Hlater. apply negb_true_iff.
      now apply Hlater.
  - intros Hu. apply run_trial_raises. now apply must_wait_raises.
Qed.

Lemma prompt_takes_waits_or_raises_witness :
  (exists s' k r,
     run_trial sample_env 40 1 0 initial_state = Done tt s' /\
     int (unicode sample_env) k = Some r /\
     participant_response (data s') =
       participant_response (data initial_state) ++ [r]) /\
  (run_trial superscript_env 40 1 0 initial_state = Raise \/
   run_trial superscript_env 40 1 0 initial_state = Timeout).
Proof.
  split.
  - eexists.
    assert (H : run_trial sample_env 40 1 0 initial_state = Done tt _)
      by (vm_compute; reflexivity).
    destruct (proj1 (proj2 (prompt_takes_waits_or_raises
                              sample_env 40 1 0 initial_state)) _ H)
      as (k & r & Hr & Hp & _).
    exists k, r. split; [exact H|]. split; [exact Hr|exact Hp].
  - apply (proj2 (proj2 (proj2 (prompt_takes_waits_or_raises
                                  superscript_env 40 1 0 initial_state)))).
    exists [178%N]. split; [reflexivity|]. split; reflexivity.
Defined.

(** ** The table of a finished run *)

(** X21.  The script summarises after the last block only: in every run
    that gets to the summary the table has N_BLOCKS * N_TRIALS = 30 rows,
    and the overall accuracy and the overall RT are numbers, not NaN. *)
Theorem finished_run_has_thirty_rows env fuel s :
  run env fuel = Done tt s ->
  Z.of_nat (length (results (data s))) = N_BLOCKS * N_TRIALS /\
  (exists q, overall (accuracy (results (data s))) = Num q) /\
  (exists q, rt_overall (response_times (results (data s))) = Num q).
Proof.
  intros H. apply run_upto in H as (s' & H & ->).
  apply upto_rows in H as (rows & Hd & Hlen & _); [|reflexivity].
  rewrite Hd, results_add_rows. split; [rewrite Hlen; reflexivity|].
  destruct rows as [|r rows]; [discriminate|].
  split; eexists; reflexivity.
Qed.

Lemma finished_run_has_thirty_rows_witness :
  exists s, run sample_env 40 = Done tt s /\
            Z.of_nat (length (results (data s))) = N_BLOCKS * N_TRIALS.
Proof.
  eexists.
  assert (H : run sample_env 40 = Done tt _) by (vm_compute; reflexivity).
  split; [exact H|].
  exact (proj1 (finished_run_has_thirty_rows sample_env 40%nat _ H)).
Defined.
